(** * http-graceful-shutdown: a shallow embedding of [lib/index.js]

    The module keeps three variables ([isShuttingDown], [connections],
    [connectionCounter]) and exports one function, [GracefulShutdown], which
    subscribes closures to the process, to the server and to its sockets.
    Node runs these closures one at a time, to completion; the embedding is
    therefore a state machine whose steps are the single listener calls, each
    written in a small monad that threads the process state, logs the calls
    made to the outside world and stops at [process.exit] or at a thrown
    [TypeError]. *)

From stdpp Require Import gmap strings list fin_maps sorting.
From Stdlib Require Import ZArith NArith Lia Ascii.

(** ** JavaScript values read by the module *)

Module JS.

(** The option values the code inspects.  Numbers are the integral ones;
    [JFunction] stands for an object whose [Object.prototype.toString] tag
    is ['[object Function]'], [JObject] for any other object. *)
Inductive value : Type :=
| JUndefined
| JNull
| JBool (b : bool)
| JNum (n : Z)
| JStr (s : string)
| JFunction
| JObject.

#[global] Instance value_eq_dec : EqDecision value.
Proof. solve_decision. Defined.

(** ToBoolean, as used by [if (v)] and [v && w]. *)
Definition truthy (v : value) : bool :=
  match v with
  | JUndefined | JNull => false
  | JBool b => b
  | JNum n => negb (n =? 0)%Z
  | JStr s => negb (String.eqb s "")
  | JFunction | JObject => true
  end.

(** [getType.toString.call(v) === '[object Function]'] *)
Definition has_function_tag (v : value) : bool :=
  match v with JFunction => true | _ => false end.

(** Numbers are IEEE doubles: integers are exact up to [2^53], and
    [2^53 + 1] rounds back to [2^53], so [n++] on a counter that started at
    0 stops there. *)
Definition MAX_EXACT : N := (2 ^ 53)%N.

Definition incr (n : N) : N := if (n <? MAX_EXACT)%N then (n + 1)%N else n.

End JS.

Import JS.

(** ** Data *)

(** A socket object is addressed by its position in the store of all sockets
    the servers have handed out; the registry and the request objects hold
    such references, so they alias the same socket. *)
Abbreviation sockref := nat (only parsing).

Record socket : Type := Socket {
  _isIdle : bool;
  _connectionId : N;
  destroyed : bool;      (* [socket.destroy()] has been called *)
  server_of : nat        (* the server that accepted it *)
}.

(** The [opts] argument: a property is either absent or holds a value;
    [signals], when given, is a string, as the header of the function
    requires ([split] is called on it). *)
Record opts_obj : Type := Opts {
  o_signals : option string;
  o_timeout : option value;
  o_development : option value;
  o_onShutdown : option value;
  o_finally : option value
}.

Definition empty_opts : opts_obj := Opts None None None None None.

(** [options], the result of [objectAssign(defaults, opts)]; reading a
    property neither object has gives [undefined]. *)
Record options : Type := Options {
  signals : string;
  timeout : value;
  development : value;
  onShutdown : value;
  finally : value
}.

Definition objectAssign_defaults (opts : opts_obj) : options :=
  {| signals := default "SIGINT SIGTERM" (o_signals opts);
     timeout := default (JNum 30000) (o_timeout opts);
     development := default (JBool false) (o_development opts);
     onShutdown := default JUndefined (o_onShutdown opts);
     finally := default JUndefined (o_finally opts) |}.

(** What [debug] is called with. *)
Inductive debug_msg : Type :=
| DbgShutdownSignal (sig : string)
| DbgDevMode
| DbgShuttingDown
| DbgForceful (ms : value)
| DbgConnectionsDestroyed (counter : N)
| DbgConnectionCounter (n : N)
| DbgClosed.

(** Calls that leave the module. *)
Inductive effect : Type :=
| Debug (m : debug_msg)
| SocketDestroy (s : sockref)          (* socket.destroy() *)
| SetTimeout (i : nat) (ms : value)    (* setTimeout(.., options.timeout).unref() *)
| OnShutdownCall (i : nat)             (* options.onShutdown() *)
| ServerClose (i : nat)                (* server.close(..) *)
| FinallyCall (i : nat)                (* options.finally() *)
| ProcessExit (code : Z).              (* process.exit(code) *)

#[global] Instance debug_msg_eq_dec : EqDecision debug_msg.
Proof. solve_decision. Defined.
#[global] Instance effect_eq_dec : EqDecision effect.
Proof. solve_decision. Defined.

Inductive proc_status : Type :=
| Alive
| Exited (code : Z)                    (* the module called process.exit(code) *)
| Uncaught                             (* a listener of the module threw *)
| Unhandled.                           (* the runtime ended the process for a
                                          rejection that no handler took *)

#[global] Instance proc_status_eq_dec : EqDecision proc_status.
Proof. solve_decision. Defined.

(** The process: the three module variables, then what the runtime holds.
    [instances] has one entry per call of [GracefulShutdown]; entry [i] stands
    for that call's closures, its [options] and its [server]. *)
Record state : Type := State {
  isShuttingDown : bool;
  connections : gmap N sockref;
  connectionCounter : N;
  sockets : list socket;
  instances : list options;
  timers : list nat;                   (* instances whose forced-exit timer is armed *)
  pending : list nat;                  (* [onShutdown()] promises with a [then] reaction *)
  closing : list nat;                  (* servers whose close callback is outstanding *)
  status : proc_status
}.

Definition init : state :=
  {| isShuttingDown := false; connections := ∅; connectionCounter := 0%N;
     sockets := []; instances := []; timers := []; pending := [];
     closing := []; status := Alive |}.

Definition set_isShuttingDown (b : bool) (st : state) : state :=
  State b (connections st) (connectionCounter st) (sockets st) (instances st)
        (timers st) (pending st) (closing st) (status st).
Definition set_connections (c : gmap N sockref) (st : state) : state :=
  State (isShuttingDown st) c (connectionCounter st) (sockets st) (instances st)
        (timers st) (pending st) (closing st) (status st).
Definition set_connectionCounter (n : N) (st : state) : state :=
  State (isShuttingDown st) (connections st) n (sockets st) (instances st)
        (timers st) (pending st) (closing st) (status st).
Definition set_sockets (l : list socket) (st : state) : state :=
  State (isShuttingDown st) (connections st) (connectionCounter st) l (instances st)
        (timers st) (pending st) (closing st) (status st).
Definition set_instances (l : list options) (st : state) : state :=
  State (isShuttingDown st) (connections st) (connectionCounter st) (sockets st) l
        (timers st) (pending st) (closing st) (status st).
Definition set_timers (l : list nat) (st : state) : state :=
  State (isShuttingDown st) (connections st) (connectionCounter st) (sockets st)
        (instances st) l (pending st) (closing st) (status st).
Definition set_pending (l : list nat) (st : state) : state :=
  State (isShuttingDown st) (connections st) (connectionCounter st) (sockets st)
        (instances st) (timers st) l (closing st) (status st).
Definition set_closing (l : list nat) (st : state) : state :=
  State (isShuttingDown st) (connections st) (connectionCounter st) (sockets st)
        (instances st) (timers st) (pending st) l (status st).
Definition set_status (s : proc_status) (st : state) : state :=
  State (isShuttingDown st) (connections st) (connectionCounter st) (sockets st)
        (instances st) (timers st) (pending st) (closing st) s.

(** ** The listener monad *)

Inductive result (A : Type) : Type :=
| Ok (a : A)
| Exit                 (* the process has ended: the listener stops *)
| Throw.               (* a [TypeError] was thrown *)
Arguments Ok {A} a.
Arguments Exit {A}.
Arguments Throw {A}.

Definition M (A : Type) : Type := state → result A * state * list effect.

#[global] Instance M_ret : MRet M := λ A a st, (Ok a, st, []).
#[global] Instance M_bind : MBind M := λ A B k m st,
  match m st with
  | (Ok a, st1, es1) => let '(r, st2, es2) := k a st1 in (r, st2, es1 ++ es2)
  | (Exit, st1, es1) => (Exit, st1, es1)
  | (Throw, st1, es1) => (Throw, st1, es1)
  end.

Definition gets {A : Type} (f : state → A) : M A := λ st, (Ok (f st), st, []).
Definition modify (f : state → state) : M unit := λ st, (Ok tt, f st, []).
Definition emit (e : effect) : M unit := λ st, (Ok tt, st, [e]).
Definition throw_TypeError {A : Type} : M A := λ st, (Throw, st, []).
Definition debug (m : debug_msg) : M unit := emit (Debug m).
Definition skip : M unit := mret tt.

(** [xs.forEach(..)] with a local variable the callback updates. *)
Fixpoint forEach {A S : Type} (xs : list A) (body : A → S → M S) (s : S) : M S :=
  match xs with
  | [] => mret s
  | x :: xs' => s' ← body x s; forEach xs' body s'
  end.

Fixpoint remove_first (i : nat) (l : list nat) : list nat :=
  match l with
  | [] => []
  | j :: l' => if decide (j = i) then l' else j :: remove_first i l'
  end.

(** ** The closures of [GracefulShutdown] *)

(** [isFunction(functionToCheck)], used as a condition. *)
Definition isFunction (functionToCheck : value) : bool :=
  truthy functionToCheck && has_function_tag functionToCheck.

(** [Object.keys(connections)]: the keys are the canonical strings of the
    identifiers, which an object enumerates in the order in which an
    increasing counter created them, that is in ascending order. *)
Definition Object_keys (c : gmap N sockref) : list N :=
  merge_sort N.le (elements (dom c)).

Definition deref (s : sockref) : M socket := λ st,
  match sockets st !! s with
  | Some sock => (Ok sock, st, [])
  | None => (Throw, st, [])
  end.

Definition set_idle (b : bool) (sock : socket) : socket :=
  Socket b (_connectionId sock) (destroyed sock) (server_of sock).
Definition set_destroyed (sock : socket) : socket :=
  Socket (_isIdle sock) (_connectionId sock) true (server_of sock).

Definition update_socket (s : sockref) (f : socket → socket) : M unit :=
  modify (λ st, set_sockets (alter f s (sockets st)) st).

Definition delete_connection (id : N) : M unit :=
  modify (λ st, set_connections (delete id (connections st)) st).

(** [function destroy(socket)]; the argument is [undefined] when a registry
    lookup found nothing, and reading [_isIdle] of it throws. *)
Definition destroy (socket : option sockref) : M unit :=
  match socket with
  | None => throw_TypeError
  | Some s =>
      sock ← deref s;
      shutting ← gets isShuttingDown;
      if _isIdle sock && shutting then
        emit (SocketDestroy s);;
        update_socket s set_destroyed;;
        delete_connection (_connectionId sock)
      else skip
  end.

(** The listener [process.on('exit', ..)] of instance [i]. *)
Definition exit_listener (i : nat) (options : options) : list effect :=
  (if truthy (finally options) && isFunction (finally options)
   then [FinallyCall i] else [])
  ++ [Debug DbgClosed].

(** [process.exit(code)]: the ['exit'] listeners run, in the order in which
    they were subscribed, inside the call; nothing runs after it. *)
Definition process_exit {A : Type} (code : Z) : M A := λ st,
  (Exit, set_status (Exited code) st,
   ProcessExit code :: mjoin (imap exit_listener (instances st))).

(** What a runtime that raises an unhandled rejection as an uncaught error
    does (Node since version 15, unless started with another
    [--unhandled-rejections] mode): the ['exit'] listeners run and the process
    ends, with status 1.  No code of the module takes part in it. *)
Definition unhandled_rejection {A : Type} : M A := λ st,
  (Exit, set_status Unhandled st, mjoin (imap exit_listener (instances st))).

(** [function cleanupHttp()] of the [shutdown] call of instance [i]; [counter]
    is that call's local variable, 0 when [cleanupHttp] starts, and
    [cleanup_each] is the callback given to [forEach]. *)
Definition cleanup_each (key : N) (counter : N) : M N :=
  let counter := JS.incr counter in
  socket ← gets (λ st, connections st !! key);
  destroy socket;;
  mret counter.

Definition cleanupHttp (i : nat) : M unit :=
  keys ← gets (λ st, Object_keys (connections st));
  counter ← forEach keys cleanup_each 0%N;
  debug (DbgConnectionsDestroyed counter);;
  cc ← gets connectionCounter;
  debug (DbgConnectionCounter cc);;
  emit (ServerClose i);;
  modify (λ st, set_closing (closing st ++ [i]) st).

(** [function shutdown(sig)] of instance [i]. *)
Definition shutdown (i : nat) (options : options) (sig : string) : M unit :=
  debug (DbgShutdownSignal sig);;
  if truthy (development options) then
    debug DbgDevMode;;
    process_exit 0
  else
    shutting ← gets isShuttingDown;
    if negb shutting then
      modify (set_isShuttingDown true);;
      debug DbgShuttingDown;;
      (if truthy (timeout options) then
         emit (SetTimeout i (timeout options));;
         modify (λ st, set_timers (timers st ++ [i]) st)
       else skip);;
      if truthy (onShutdown options) && isFunction (onShutdown options) then
        emit (OnShutdownCall i);;
        modify (λ st, set_pending (pending st ++ [i]) st)
      else
        cleanupHttp i
    else skip.

(** The callback given to [setTimeout]. *)
Definition forced_timeout (options : options) : M unit :=
  debug (DbgForceful (timeout options));;
  process_exit 1.

(** [server.on('request', ..)]: the part that runs when the request arrives. *)
Definition on_request (s : sockref) : M unit :=
  update_socket s (set_idle false).

(** [res.on('finish', ..)] *)
Definition on_finish (s : sockref) : M unit :=
  update_socket s (set_idle true);;
  destroy (Some s).

(** [server.on('connection', ..)] of instance [i], called with a socket the
    server has just created. *)
Definition on_connection (i : nat) : M unit :=
  id ← gets connectionCounter;
  modify (λ st, set_connectionCounter (JS.incr (connectionCounter st)) st);;
  s ← gets (λ st, length (sockets st));
  modify (λ st, set_sockets (sockets st ++ [Socket true id false i]) st);;
  modify (λ st, set_connections (<[id := s]> (connections st)) st).

(** [socket.on('close', ..)]; [id] is the identifier the socket was given. *)
Definition on_close (id : N) : M unit :=
  delete_connection id.

(** [function GracefulShutdown(server, opts)]: the call merges the options and
    subscribes the closures, which the new entry of [instances] stands for.
    Each call is given a server of its own, so that a socket meets one
    ['connection'] listener, and names of signals that [process.on] accepts
    ([refused] below tells the two it does not): a refused name makes the
    call throw before the server is wrapped. *)
Definition GracefulShutdown (opts : option opts_obj) : M unit :=
  let opts := default empty_opts opts in
  let options := objectAssign_defaults opts in
  modify (λ st, set_instances (instances st ++ [options]) st).

(** ** The event loop *)

(** What the runtime may do next.  The callbacks the user configures
    ([onShutdown], [finally]) are calls to the outside: they return, and
    [onShutdown] is taken to return a promise, as its contract asks; the
    promise settles at most once.  The module gives that promise a [then]
    reaction and no rejection handler, so that a rejection is left to the
    runtime, which either goes on ([EvHookRejected]: a runtime that ignores
    the rejection or only warns) or ends the process
    ([EvUnhandledRejection]: a runtime that raises it as an uncaught error, as
    Node does by default since version 15).  [EvSignal i sig] is one call of a
    listener that instance [i] subscribed for the signals named in
    [options.signals]; [EvFinish] may come for any socket, which is more than
    a server does.  The turns are those in which code of the module runs or
    one of its promises settles: a process that ends because its event loop
    is empty, or because code outside the module throws, is not among them. *)
Inductive event : Type :=
| EvGracefulShutdown (opts : option opts_obj)
| EvSignal (i : nat) (sig : string)    (* a signal listener of instance [i] runs *)
| EvConnection (i : nat)               (* server [i] emits ['connection'] *)
| EvRequest (s : sockref)              (* ['request'] with [req.socket = s] *)
| EvFinish (s : sockref)               (* ['finish'] of a response on [s] *)
| EvClose (s : sockref)                (* socket [s] emits ['close'] *)
| EvTimeout (i : nat)                  (* the forced-exit timer of [i] fires *)
| EvHookResolved (i : nat)             (* the promise of [onShutdown()] resolves *)
| EvHookRejected (i : nat)             (* ... or rejects, and the runtime goes on *)
| EvServerClosed (i : nat)             (* the callback of [server.close] runs *)
| EvUnhandledRejection (i : nat).      (* the promise rejects, and the runtime
                                          raises the rejection as uncaught *)

(** The listener an event runs.  An event the runtime cannot deliver (an
    instance or a socket that does not exist, a timer that is not armed, a
    promise that is not pending, a server that is not closing) runs nothing. *)
Definition listener (ev : event) : M unit :=
  match ev with
  | EvGracefulShutdown opts => GracefulShutdown opts
  | EvSignal i sig =>
      o ← gets (λ st, instances st !! i);
      match o with Some options => shutdown i options sig | None => skip end
  | EvConnection i =>
      o ← gets (λ st, instances st !! i);
      match o with Some _ => on_connection i | None => skip end
  | EvRequest s =>
      o ← gets (λ st, sockets st !! s);
      match o with Some _ => on_request s | None => skip end
  | EvFinish s =>
      o ← gets (λ st, sockets st !! s);
      match o with Some _ => on_finish s | None => skip end
  | EvClose s =>
      o ← gets (λ st, sockets st !! s);
      match o with Some sock => on_close (_connectionId sock) | None => skip end
  | EvTimeout i =>
      armed ← gets (λ st, bool_decide (i ∈ timers st));
      o ← gets (λ st, instances st !! i);
      match o with
      | Some options =>
          if (armed : bool) then
            modify (λ st, set_timers (remove_first i (timers st)) st);;
            forced_timeout options
          else skip
      | None => skip
      end
  | EvHookResolved i =>
      waiting ← gets (λ st, bool_decide (i ∈ pending st));
      if (waiting : bool) then
        modify (λ st, set_pending (remove_first i (pending st)) st);;
        cleanupHttp i
      else skip
  | EvHookRejected i =>
      waiting ← gets (λ st, bool_decide (i ∈ pending st));
      if (waiting : bool) then
        modify (λ st, set_pending (remove_first i (pending st)) st)
      else skip
  | EvServerClosed i =>
      waiting ← gets (λ st, bool_decide (i ∈ closing st));
      if (waiting : bool) then
        modify (λ st, set_closing (remove_first i (closing st)) st);;
        process_exit 0
      else skip
  | EvUnhandledRejection i =>
      waiting ← gets (λ st, bool_decide (i ∈ pending st));
      if (waiting : bool) then
        modify (λ st, set_pending (remove_first i (pending st)) st);;
        unhandled_rejection
      else skip
  end.

(** One turn of the loop.  Nothing runs once the process has ended; a
    listener that throws leaves the process with an uncaught exception. *)
Definition step (ev : event) (st : state) : state * list effect :=
  match status st with
  | Alive =>
      match listener ev st with
      | (Throw, st', es) => (set_status Uncaught st', es)
      | (_, st', es) => (st', es)
      end
  | _ => (st, [])
  end.

Fixpoint run (evs : list event) (st : state) : state * list effect :=
  match evs with
  | [] => (st, [])
  | ev :: evs' =>
      let '(st1, es1) := step ev st in
      let '(st2, es2) := run evs' st1 in
      (st2, es1 ++ es2)
  end.

Definition reachable (st : state) : Prop := ∃ evs, (run evs init).1 = st.


(** ** Predicates on states *)

(** The socket registered under [key], when it is idle. *)
Definition idle_at (st : state) (key : N) : option sockref :=
  s ← connections st !! key;
  sock ← sockets st !! s;
  if _isIdle sock then Some s else None.

(** Every registry entry refers to a socket that carries the entry's key. *)
Definition registry_wf (st : state) : Prop :=
  ∀ k s, connections st !! k = Some s →
    ∃ sock, sockets st !! s = Some sock ∧ _connectionId sock = k.

(** What a listener may do to the socket store: only [destroyed] is ever
    set, and only the idle flag is otherwise written. *)
Definition only_destroys (l l' : list socket) : Prop :=
  length l' = length l ∧
  ∀ s sock, l !! s = Some sock →
    ∃ sock', l' !! s = Some sock' ∧ _isIdle sock' = _isIdle sock ∧
      _connectionId sock' = _connectionId sock ∧
      server_of sock' = server_of sock ∧
      (destroyed sock = true → destroyed sock' = true).

(** The fields a reap does not touch. *)
Definition same_control (st st' : state) : Prop :=
  isShuttingDown st' = isShuttingDown st ∧
  connectionCounter st' = connectionCounter st ∧
  instances st' = instances st ∧ timers st' = timers st ∧
  pending st' = pending st ∧ closing st' = closing st ∧
  status st' = status st.

(** What the sweep of [cleanupHttp], started in [st], leaves behind: the
    sockets it destroyed, in order, are the idle entries of [st]; these are
    gone from the registry, every other entry is kept. *)
Definition swept (st st' : state) (es : list effect) : Prop :=
  es = SocketDestroy <$> omap (idle_at st) (Object_keys (connections st)) ∧
  registry_wf st' ∧ same_control st st' ∧
  only_destroys (sockets st) (sockets st') ∧
  (∀ k, is_Some (idle_at st k) → connections st' !! k = None) ∧
  (∀ k, idle_at st k = None → connections st' !! k = connections st !! k) ∧
  (∀ k s, idle_at st k = Some s →
     ∃ sock, sockets st' !! s = Some sock ∧ destroyed sock = true).

(** The value of [counter] after [n] turns of the loop. *)
Definition counted (n : nat) : N := Nat.iter n JS.incr 0%N.

(** Arming the forced-exit timer, when [options.timeout] is truthy. *)
Definition arm (i : nat) (o : options) (st : state) : state :=
  if truthy (timeout o) then set_timers (timers st ++ [i]) st else st.
Definition arm_effects (i : nat) (o : options) : list effect :=
  if truthy (timeout o) then [SetTimeout i (timeout o)] else [].

(** The log lines and the call that follow the sweep in [cleanupHttp]. *)
Definition close_effects (i : nat) (st : state) : list effect :=
  [Debug (DbgConnectionsDestroyed (counted (size (connections st))));
   Debug (DbgConnectionCounter (connectionCounter st));
   ServerClose i].

Definition exit_effects (code : Z) (st : state) : list effect :=
  ProcessExit code :: mjoin (imap exit_listener (instances st)).

Definition started (o : options) (st : state) : bool :=
  negb (truthy (development o)) && negb (isShuttingDown st).

Definition has_hook (o : options) : bool :=
  truthy (onShutdown o) && isFunction (onShutdown o).

(** The turns of the loop, one rule per path through a listener.  [step]
    follows these rules in every live, well-formed state
    ([step_transition] below); the invariants are proved on the rules. *)
Inductive transition (st : state) : event → state → list effect → Prop :=
| T_idle ev :
    transition st ev st []
| T_instantiate opts :
    transition st (EvGracefulShutdown opts)
      (set_instances
         (instances st ++ [objectAssign_defaults (default empty_opts opts)]) st)
      []
| T_development i o sig :
    instances st !! i = Some o → truthy (development o) = true →
    transition st (EvSignal i sig) (set_status (Exited 0) st)
      ([Debug (DbgShutdownSignal sig); Debug DbgDevMode] ++ exit_effects 0 st)
| T_again i o sig :
    instances st !! i = Some o → truthy (development o) = false →
    isShuttingDown st = true →
    transition st (EvSignal i sig) st [Debug (DbgShutdownSignal sig)]
| T_trigger_hook i o sig :
    instances st !! i = Some o → started o st = true → has_hook o = true →
    transition st (EvSignal i sig)
      (set_pending (pending st ++ [i]) (arm i o (set_isShuttingDown true st)))
      ([Debug (DbgShutdownSignal sig); Debug DbgShuttingDown]
         ++ arm_effects i o ++ [OnShutdownCall i])
| T_trigger_cleanup i o sig st1 es1 :
    instances st !! i = Some o → started o st = true → has_hook o = false →
    swept (arm i o (set_isShuttingDown true st)) st1 es1 →
    transition st (EvSignal i sig)
      (set_closing (closing st1 ++ [i]) st1)
      ([Debug (DbgShutdownSignal sig); Debug DbgShuttingDown]
         ++ arm_effects i o ++ es1
         ++ close_effects i (arm i o (set_isShuttingDown true st)))
| T_connection i o :
    instances st !! i = Some o →
    transition st (EvConnection i)
      (set_connections
         (<[connectionCounter st := length (sockets st)]> (connections st))
         (set_sockets (sockets st ++ [Socket true (connectionCounter st) false i])
            (set_connectionCounter (JS.incr (connectionCounter st)) st)))
      []
| T_request s sock :
    sockets st !! s = Some sock →
    transition st (EvRequest s)
      (set_sockets (alter (set_idle false) s (sockets st)) st) []
| T_finish_reap s sock :
    sockets st !! s = Some sock → isShuttingDown st = true →
    transition st (EvFinish s)
      (set_connections (delete (_connectionId sock) (connections st))
         (set_sockets
            (alter set_destroyed s (alter (set_idle true) s (sockets st))) st))
      [SocketDestroy s]
| T_finish_keep s sock :
    sockets st !! s = Some sock → isShuttingDown st = false →
    transition st (EvFinish s)
      (set_sockets (alter (set_idle true) s (sockets st)) st) []
| T_close s sock :
    sockets st !! s = Some sock →
    transition st (EvClose s)
      (set_connections (delete (_connectionId sock) (connections st)) st) []
| T_timeout i o :
    instances st !! i = Some o → i ∈ timers st →
    transition st (EvTimeout i)
      (set_status (Exited 1) (set_timers (remove_first i (timers st)) st))
      (Debug (DbgForceful (timeout o)) :: exit_effects 1 st)
| T_resolved i st1 es1 :
    i ∈ pending st →
    swept (set_pending (remove_first i (pending st)) st) st1 es1 →
    transition st (EvHookResolved i)
      (set_closing (closing st1 ++ [i]) st1)
      (es1 ++ close_effects i st)
| T_rejected i :
    i ∈ pending st →
    transition st (EvHookRejected i)
      (set_pending (remove_first i (pending st)) st) []
| T_closed i :
    i ∈ closing st →
    transition st (EvServerClosed i)
      (set_status (Exited 0) (set_closing (remove_first i (closing st)) st))
      (exit_effects 0 st)
| T_unhandled i :
    i ∈ pending st →
    transition st (EvUnhandledRejection i)
      (set_status Unhandled (set_pending (remove_first i (pending st)) st))
      (mjoin (imap exit_listener (instances st))).

(** What holds of every state the loop can reach. *)
Record Inv (st : state) : Prop := {
  inv_registry : registry_wf st;
  inv_counter :
    connectionCounter st = N.min (N.of_nat (length (sockets st))) MAX_EXACT;
  inv_ids : ∀ s sock, sockets st !! s = Some sock →
    _connectionId sock = N.min (N.of_nat s) MAX_EXACT;
  inv_server : ∀ s sock, sockets st !! s = Some sock →
    server_of sock < length (instances st);
  inv_caught : status st ≠ Uncaught;
  inv_running : isShuttingDown st = false →
    timers st = [] ∧ pending st = [] ∧ closing st = [];
  inv_once : length (pending st) + length (closing st) ≤ 1;
  inv_timer : length (timers st) ≤ 1
}.

(** ** Counting calls in a log *)

Definition count (p : effect → bool) (es : list effect) : nat :=
  length (List.filter p es).

Definition is_entered (e : effect) : bool :=
  match e with Debug DbgShuttingDown => true | _ => false end.
Definition is_timer (e : effect) : bool :=
  match e with SetTimeout _ _ => true | _ => false end.
Definition is_hook (e : effect) : bool :=
  match e with OnShutdownCall _ => true | _ => false end.
Definition is_sweep (e : effect) : bool :=
  match e with Debug (DbgConnectionsDestroyed _) => true | _ => false end.
Definition is_close (e : effect) : bool :=
  match e with ServerClose _ => true | _ => false end.
Definition is_destroy (e : effect) : bool :=
  match e with SocketDestroy _ => true | _ => false end.
Definition is_exit (e : effect) : bool :=
  match e with ProcessExit _ => true | _ => false end.
Definition is_finally (i : nat) (e : effect) : bool :=
  match e with FinallyCall j => Nat.eqb j i | _ => false end.

(** What holds of a state together with the log that led to it. *)
Record TInv (st : state) (es : list effect) : Prop := {
  t_running : isShuttingDown st = false →
    count is_entered es = 0 ∧ count is_timer es = 0 ∧ count is_hook es = 0 ∧
    count is_sweep es = 0 ∧ count is_destroy es = 0;
  t_entered : isShuttingDown st = true →
    count is_entered es = 1 ∧ 1 ≤ count is_hook es + count is_sweep es;
  t_timer : count is_timer es ≤ 1;
  t_hook : count is_hook es ≤ 1;
  t_close : count is_close es = count is_sweep es;
  t_sweep : count is_sweep es + length (pending st) ≤ 1;
  t_alive : status st = Alive →
    count is_exit es = 0 ∧ ∀ i, count (is_finally i) es = 0;
  t_exited : ∀ c, status st = Exited c →
    count is_exit es = 1 ∧
    ∀ i o, instances st !! i = Some o →
      count (is_finally i) es = if isFunction (finally o) then 1 else 0
}.

(** ** Sample configurations and runs *)

Definition with_hook : opts_obj :=
  Opts None None None (Some JFunction) (Some JFunction).
Definition in_development : opts_obj :=
  Opts None None (Some (JBool true)) (Some JFunction) (Some JFunction).
Definition timeout_zero : opts_obj :=
  Opts None (Some (JNum 0)) None None None.
Definition hook_without_timer : opts_obj :=
  Opts None (Some (JNum 0)) None (Some JFunction) (Some JFunction).

(** One server with two connections: 0 is idle, 1 is serving a request. *)
Definition serving (opts : option opts_obj) : state :=
  (run [EvGracefulShutdown opts; EvConnection 0; EvConnection 0; EvRequest 1]
       init).1.

(** Two servers, each with one connection. *)
Definition two_servers : state :=
  (run [EvGracefulShutdown None; EvGracefulShutdown (Some with_hook);
        EvConnection 0; EvConnection 1] init).1.

(** ** Signals *)

(** [s.split(sep)] for a separator of one character. *)
Fixpoint js_split (sep : ascii) (s : string) : list string :=
  match s with
  | EmptyString => [EmptyString]
  | String c s' =>
      if Ascii.eqb c sep then EmptyString :: js_split sep s'
      else
        match js_split sep s' with
        | field :: fields => String c field :: fields
        | [] => [String c EmptyString]
        end
  end.

(** The test [signal && signal !== ''] of the [forEach] callback. *)
Definition is_signal_name (signal : string) : bool :=
  truthy (JStr signal) && negb (String.eqb signal "").

(** The names for which [process.on] throws instead of subscribing: Node
    installs no listener for these two signals. *)
Definition refused (signal : string) : bool :=
  String.eqb signal "SIGKILL" || String.eqb signal "SIGSTOP".

(** The entries of [options.signals.split(' ')] that pass the test of the
    callback, in order: the names [process.on] is called with, as long as no
    call throws.  An entry that occurs twice subscribes two listeners. *)
Definition subscribed (o : options) : list string :=
  List.filter is_signal_name (js_split " " (signals o)).

(** The listeners the process calls when it receives [sig]: those subscribed
    for it, in the order of subscription. *)
Definition signal_listeners (sig : string) (st : state) : list event :=
  mjoin (imap (λ i o, (λ _, EvSignal i sig)
                        <$> List.filter (String.eqb sig) (subscribed o))
              (instances st)).

(** The process receives [sig]: the listeners run one after the other, and
    none runs once [process.exit] has been called. *)
Definition deliver (sig : string) (st : state) : state * list effect :=
  run (signal_listeners sig st) st.

(** [names.join(sep)], to write down strings of signals. *)
Fixpoint js_join (sep : ascii) (names : list string) : string :=
  match names with
  | [] => EmptyString
  | [name] => name
  | name :: rest => name +:+ String sep (js_join sep rest)
  end.

Fixpoint contains (c : ascii) (s : string) : bool :=
  match s with
  | EmptyString => false
  | String c' s' => Ascii.eqb c' c || contains c s'
  end.

(** [ev] is a call of a signal listener for [sig] of an instance whose
    [development] option is truthy, or falsy, according to [dev]. *)
Definition listener_of (sig : string) (st : state) (dev : bool) (ev : event) : Prop :=
  ∃ j o, ev = EvSignal j sig ∧ instances st !! j = Some o ∧
         truthy (development o) = dev.

(** ** Destroyed sockets *)

(** A socket that is destroyed after a computation was destroyed before it,
    or the computation called [socket.destroy()] on it. *)
Definition marks (st st' : state) (es : list effect) : Prop :=
  ∀ s sock', sockets st' !! s = Some sock' → destroyed sock' = true →
    (∃ sock, sockets st !! s = Some sock ∧ destroyed sock = true) ∨
    SocketDestroy s ∈ es.

Definition keeps_marks {A : Type} (m : M A) : Prop :=
  ∀ st, marks st (m st).1.2 (m st).2.

(** No registered socket is destroyed. *)
Definition registered_intact (st : state) : Prop :=
  ∀ k s sock, connections st !! k = Some s → sockets st !! s = Some sock →
    destroyed sock = false.

(** [options] with another [onShutdown]. *)
Definition with_onShutdown (v : value) (o : options) : options :=
  Options (signals o) (timeout o) (development o) v (finally o).

(** ** What the log accounts for *)

(** Every armed timer, every outstanding close callback and every pending
    promise comes from a call in the log. *)
Definition accounted (st : state) (es : list effect) : Prop :=
  (∀ i, i ∈ timers st → ∃ ms, SetTimeout i ms ∈ es) ∧
  (∀ i, i ∈ closing st → ServerClose i ∈ es) ∧
  (∀ i, i ∈ pending st → OnShutdownCall i ∈ es).

(** Why a process that has exited did so. *)
Definition explained (st : state) (es : list effect) : Prop :=
  ∀ code, status st = Exited code →
    (code = 1%Z ∧ ∃ i ms, SetTimeout i ms ∈ es) ∨
    (code = 0%Z ∧
     ((∃ i, ServerClose i ∈ es) ∨
      ∃ j o, instances st !! j = Some o ∧ truthy (development o) = true)).

(** A call of [process.exit] in the log has ended the process, with the
    status it was given. *)
Definition exits_logged (st : state) (es : list effect) : Prop :=
  ∀ code, ProcessExit code ∈ es → status st = Exited code.

(** What a socket keeps for life. *)
Definition persists (l l' : list socket) : Prop :=
  ∀ s sock, l !! s = Some sock →
    ∃ sock', l' !! s = Some sock' ∧
      _connectionId sock' = _connectionId sock ∧
      server_of sock' = server_of sock ∧
      (destroyed sock = true → destroyed sock' = true).

(** Instance [i] has taken part in a shutdown: its timer is or was armed, its
    hook has been called, or its server is being or has been closed. *)
Definition engaged (st : state) (es : list effect) (i : nat) : Prop :=
  i ∈ timers st ∨ i ∈ pending st ∨ i ∈ closing st ∨
  (∃ ms, SetTimeout i ms ∈ es) ∨ OnShutdownCall i ∈ es ∨ ServerClose i ∈ es.

Definition single_owner (st : state) (es : list effect) : Prop :=
  ∀ i j, engaged st es i → engaged st es j → i = j.

(** ** Unfolding the monad *)

Ltac munfold :=
  unfold shutdown, cleanupHttp, cleanup_each, forced_timeout, on_request, on_finish,
    on_connection, on_close, GracefulShutdown, destroy, deref, update_socket,
    delete_connection, process_exit, unhandled_rejection, debug, emit, modify,
    gets, skip, throw_TypeError;
  unfold mbind, mret, M_bind, M_ret.

Ltac msimpl := munfold; cbn.

Lemma only_destroys_refl l : only_destroys l l.
Proof. split; [done|]. intros s sock H. exists sock. done. Qed.

Lemma only_destroys_trans l1 l2 l3 :
  only_destroys l1 l2 → only_destroys l2 l3 → only_destroys l1 l3.
Proof.
  intros [L1 H1] [L2 H2]. split; [congruence|].
  intros s sock Hs. destruct (H1 _ _ Hs) as (s1 & E1 & A1 & B1 & C1 & D1).
  destruct (H2 _ _ E1) as (s2 & E2 & A2 & B2 & C2 & D2).
  exists s2. repeat split; try congruence. auto.
Qed.

Lemma only_destroys_alter l s :
  only_destroys l (alter set_destroyed s l).
Proof.
  split; [apply length_alter|].
  intros s' sock Hs. destruct (decide (s = s')) as [->|Hne].
  - exists (set_destroyed sock). rewrite list_lookup_alter_eq, Hs. done.
  - exists sock. rewrite list_lookup_alter_ne by done. done.
Qed.

Lemma same_control_refl st : same_control st st.
Proof. repeat split. Qed.

Lemma same_control_trans st1 st2 st3 :
  same_control st1 st2 → same_control st2 st3 → same_control st1 st3.
Proof. unfold same_control. intuition congruence. Qed.

(** [destroy] on an existing socket, in closed form. *)
Lemma destroy_reaps s sock st :
  sockets st !! s = Some sock →
  _isIdle sock = true → isShuttingDown st = true →
  destroy (Some s) st =
    (Ok tt,
     set_connections (delete (_connectionId sock) (connections st))
       (set_sockets (alter set_destroyed s (sockets st)) st),
     [SocketDestroy s]).
Proof. intros Hs Hi Hd. msimpl. rewrite Hs. cbn. rewrite Hi, Hd. reflexivity. Qed.

Lemma destroy_spares s sock st :
  sockets st !! s = Some sock →
  _isIdle sock && isShuttingDown st = false →
  destroy (Some s) st = (Ok tt, st, []).
Proof. intros Hs Hi. msimpl. rewrite Hs. cbn. rewrite Hi. reflexivity. Qed.

(** ** The sweep of [cleanupHttp] *)

Lemma cleanup_each_idle key c s sock st :
  connections st !! key = Some s → sockets st !! s = Some sock →
  _connectionId sock = key →
  _isIdle sock = true → isShuttingDown st = true →
  cleanup_each key c st =
    (Ok (JS.incr c),
     set_connections (delete key (connections st))
       (set_sockets (alter set_destroyed s (sockets st)) st),
     [SocketDestroy s]).
Proof.
  intros Hk Hs Hid Hi Hd. unfold cleanup_each. unfold mbind at 1, M_bind at 1.
  unfold gets at 1. rewrite Hk. unfold mbind, M_bind.
  rewrite (destroy_reaps s sock st Hs Hi Hd), Hid. reflexivity.
Qed.

Lemma cleanup_each_busy key c s sock st :
  connections st !! key = Some s → sockets st !! s = Some sock →
  _isIdle sock && isShuttingDown st = false →
  cleanup_each key c st = (Ok (JS.incr c), st, []).
Proof.
  intros Hk Hs Hi. unfold cleanup_each. unfold mbind at 1, M_bind at 1.
  unfold gets at 1. rewrite Hk. unfold mbind, M_bind.
  rewrite (destroy_spares s sock st Hs Hi). reflexivity.
Qed.

Lemma idle_at_Some st k s :
  idle_at st k = Some s ↔
  connections st !! k = Some s ∧
  ∃ sock, sockets st !! s = Some sock ∧ _isIdle sock = true.
Proof.
  unfold idle_at. destruct (connections st !! k) as [s'|]; cbn.
  - destruct (sockets st !! s') as [sock|] eqn:E; cbn.
    + destruct (_isIdle sock) eqn:I; split.
      * intros [= ->]. eauto.
      * intros [[= ->] _]. done.
      * done.
      * intros [[= ->] (sock' & E' & I')]. congruence.
    + split; [done|]. intros [[= ->] (sock' & E' & I')]. congruence.
  - split; [done|]. intros [? _]. done.
Qed.

Lemma registry_wf_reap k s st :
  registry_wf st →
  registry_wf (set_connections (delete k (connections st))
                 (set_sockets (alter set_destroyed s (sockets st)) st)).
Proof.
  intros Hwf k' s' H. cbn in *.
  destruct (decide (k = k')) as [->|Hne].
  - rewrite lookup_delete_eq in H. done.
  - rewrite lookup_delete_ne in H by done.
    destruct (Hwf _ _ H) as (sock & Hs & Hid).
    destruct (only_destroys_alter (sockets st) s) as [_ Ha].
    destruct (Ha _ _ Hs) as (sock' & ? & ? & ? & ?). exists sock'. split; [done|congruence].
Qed.

Lemma idle_at_reap k s st k' :
  k ≠ k' →
  idle_at (set_connections (delete k (connections st))
             (set_sockets (alter set_destroyed s (sockets st)) st)) k'
  = idle_at st k'.
Proof.
  intros Hne. unfold idle_at. cbn. rewrite lookup_delete_ne by done.
  destruct (connections st !! k') as [s'|]; cbn; [|done].
  destruct (decide (s = s')) as [->|Hs].
  - rewrite list_lookup_alter_eq. destruct (sockets st !! s') as [[]|]; done.
  - rewrite list_lookup_alter_ne by done. done.
Qed.

(** The loop over a duplicate-free list of registered keys: it never throws,
    counts every key, destroys and unregisters exactly the idle entries, in
    the order of the keys, and touches nothing else. *)
Lemma forEach_cleanup keys : ∀ st c,
  registry_wf st → isShuttingDown st = true → NoDup keys →
  (∀ k, k ∈ keys → is_Some (connections st !! k)) →
  ∃ st',
    forEach keys cleanup_each c st =
      (Ok (Nat.iter (length keys) JS.incr c), st',
       SocketDestroy <$> omap (idle_at st) keys) ∧
    registry_wf st' ∧ same_control st st' ∧
    only_destroys (sockets st) (sockets st') ∧
    (∀ k, k ∈ keys → is_Some (idle_at st k) → connections st' !! k = None) ∧
    (∀ k, k ∉ keys ∨ idle_at st k = None →
          connections st' !! k = connections st !! k) ∧
    (∀ k s, k ∈ keys → idle_at st k = Some s →
       ∃ sock, sockets st' !! s = Some sock ∧ destroyed sock = true).
Proof.
  induction keys as [|k ks IH]; intros st c Hwf Hsd Hnd Hdom.
  - exists st. cbn. split; [done|]. split; [done|]. split; [apply same_control_refl|].
    split; [apply only_destroys_refl|]. split; [intros ? H; by apply elem_of_nil in H|].
    split; [done|]. intros ? ? H; by apply elem_of_nil in H.
  - apply NoDup_cons in Hnd as [Hk Hnd].
    destruct (Hdom k) as [s Hs]; [left|].
    destruct (Hwf _ _ Hs) as (sock & Hsock & Hid).
    destruct (_isIdle sock) eqn:Hidle.
    + (* the entry is idle: it is reaped *)
      set (st1 := set_connections (delete k (connections st))
                   (set_sockets (alter set_destroyed s (sockets st)) st)).
      assert (Hia : idle_at st k = Some s) by (apply idle_at_Some; eauto).
      assert (Heq : ∀ k', k' ∈ ks → idle_at st1 k' = idle_at st k').
      { intros k' Hk'. apply idle_at_reap. intros ->. done. }
      destruct (IH st1 (JS.incr c)) as (st' & Hrun & Hwf' & Hc & Hod & Hgone & Hkept & Hdead).
      { by apply registry_wf_reap. }
      { done. }
      { done. }
      { intros k' Hk'. subst st1. cbn. rewrite lookup_delete_ne by (intros ->; done).
        apply Hdom. by right. }
      exists st'. split.
      { change (length (k :: ks)) with (S (length ks)). rewrite Nat.iter_succ_r.
        cbn [forEach]. unfold mbind at 1, M_bind at 1.
        rewrite (cleanup_each_idle k c s sock st Hs Hsock Hid Hidle Hsd).
        fold st1. rewrite Hrun. cbn [omap list_omap]. rewrite Hia. cbn [fmap list_fmap].
        rewrite (list_omap_ext (idle_at st1) (idle_at st) ks ks); [done|].
        apply Forall2_same_length_lookup_2; [done|].
        intros i x y Hx Hy. assert (x = y) as -> by congruence.
        rewrite Heq; [done|]. by apply list_elem_of_lookup_2 in Hx. }
      split; [done|]. split.
      { eapply same_control_trans; [|exact Hc]. subst st1. repeat split. }
      split.
      { eapply only_destroys_trans; [|exact Hod]. apply only_destroys_alter. }
      split.
      { intros k' Hk' Hik'. apply elem_of_cons in Hk' as [->|Hk'].
        - rewrite Hkept; [subst st1; cbn; apply lookup_delete_eq|]. by left.
        - apply Hgone; [done|]. by rewrite Heq. }
      split.
      { intros k' Hk'. 
        assert (k' ≠ k) as Hne.
        { intros ->. destruct Hk' as [Hk'|Hk']; [apply Hk'; left|congruence]. }
        rewrite Hkept.
        - subst st1; cbn. by rewrite lookup_delete_ne.
        - destruct Hk' as [Hk'|Hk'].
          + left. intros ?. apply Hk'. by right.
          + right. subst st1. rewrite idle_at_reap; done. }
      intros k' s' Hk' Hik'. apply elem_of_cons in Hk' as [->|Hk'].
      * assert (s' = s) as -> by congruence.
        destruct Hod as [_ Hod]. 
        destruct (Hod s (set_destroyed sock)) as (sock' & ? & _ & _ & _ & Hd).
        { subst st1; cbn. by rewrite list_lookup_alter_eq, Hsock. }
        exists sock'. split; [done|]. by apply Hd.
      * apply (Hdead k'); [done|]. by rewrite Heq.
    + (* the entry is busy: it is left alone *)
      assert (Hia : idle_at st k = None).
      { unfold idle_at. rewrite Hs; cbn. rewrite Hsock; cbn. by rewrite Hidle. }
      destruct (IH st (JS.incr c)) as (st' & Hrun & Hwf' & Hc & Hod & Hgone & Hkept & Hdead);
        [done|done|done|by intros k' Hk'; apply Hdom; right|].
      exists st'. split.
      { change (length (k :: ks)) with (S (length ks)). rewrite Nat.iter_succ_r.
        cbn [forEach]. unfold mbind at 1, M_bind at 1.
        rewrite (cleanup_each_busy k c s sock st Hs Hsock) by (by rewrite Hidle).
        rewrite Hrun. cbn [omap list_omap]. rewrite Hia. done. }
      split; [done|]. split; [done|]. split; [done|]. split.
      { intros k' Hk' Hik'. apply elem_of_cons in Hk' as [->|Hk'].
        - rewrite Hia in Hik'. by destruct Hik'.
        - by apply Hgone. }
      split.
      { intros k' Hk'. destruct (decide (k' = k)) as [->|Hne].
        - apply Hkept. by left.
        - apply Hkept. destruct Hk' as [Hk'|Hk']; [left|by right].
          intros ?. apply Hk'. by right. }
      intros k' s' Hk' Hik'. apply elem_of_cons in Hk' as [->|Hk'].
      * congruence.
      * by apply (Hdead k').
Qed.

Lemma Object_keys_perm (c : gmap N nat) : Object_keys c ≡ₚ elements (dom c).
Proof. apply merge_sort_Permutation. Qed.

Lemma elem_of_Object_keys (c : gmap N nat) k :
  k ∈ Object_keys c ↔ is_Some (c !! k).
Proof. rewrite Object_keys_perm, elem_of_elements. apply elem_of_dom. Qed.

Lemma NoDup_Object_keys (c : gmap N nat) : NoDup (Object_keys c).
Proof. rewrite Object_keys_perm. apply NoDup_elements. Qed.

Lemma length_Object_keys (c : gmap N nat) : length (Object_keys c) = size c.
Proof. rewrite Object_keys_perm. by rewrite <- size_dom. Qed.

Lemma Object_keys_sorted (c : gmap N nat) : Sorted N.le (Object_keys c).
Proof. apply Sorted_merge_sort. intros x y. lia. Qed.

Lemma idle_at_registered st k s : idle_at st k = Some s → connections st !! k = Some s.
Proof. intros H. by apply idle_at_Some in H as [? _]. Qed.

(** [cleanupHttp] in a well-formed state that is shutting down: the sweep,
    the two log lines, then [server.close]. *)
Lemma cleanupHttp_spec i st :
  registry_wf st → isShuttingDown st = true →
  ∃ st1 es1, swept st st1 es1 ∧
    cleanupHttp i st =
      (Ok tt, set_closing (closing st1 ++ [i]) st1,
       es1 ++ [Debug (DbgConnectionsDestroyed (counted (size (connections st))));
               Debug (DbgConnectionCounter (connectionCounter st));
               ServerClose i]).
Proof.
  intros Hwf Hsd.
  destruct (forEach_cleanup (Object_keys (connections st)) st 0%N Hwf Hsd)
    as (st1 & Hrun & Hwf1 & Hc & Hod & Hgone & Hkept & Hdead).
  { apply NoDup_Object_keys. }
  { intros k. by rewrite elem_of_Object_keys. }
  exists st1, (SocketDestroy <$> omap (idle_at st) (Object_keys (connections st))).
  split.
  - split; [done|]. split; [done|]. split; [done|]. split; [done|].
    split; [|split].
    + intros k Hk. apply Hgone; [|done]. apply elem_of_Object_keys.
      destruct Hk as [s Hk]. apply idle_at_registered in Hk. eauto.
    + intros k Hk. apply Hkept. by right.
    + intros k s Hk. apply (Hdead k); [|done]. apply elem_of_Object_keys.
      apply idle_at_registered in Hk. eauto.
  - unfold cleanupHttp. unfold mbind at 1, M_bind at 1. unfold gets at 1.
    unfold mbind at 1, M_bind at 1. rewrite Hrun.
    rewrite length_Object_keys. destruct Hc as (_ & Hcc & _).
    msimpl. rewrite Hcc. unfold counted. reflexivity.
Qed.

(** ** From the listeners to the rules *)

Lemma step_dead ev st : status st ≠ Alive → step ev st = (st, []).
Proof. unfold step. destruct (status st); done. Qed.

Lemma shutdown_development i o sig st :
  truthy (development o) = true →
  shutdown i o sig st =
    (Exit, set_status (Exited 0) st,
     [Debug (DbgShutdownSignal sig); Debug DbgDevMode] ++ exit_effects 0 st).
Proof. intros Hd. msimpl. rewrite Hd. reflexivity. Qed.

Lemma shutdown_again i o sig st :
  truthy (development o) = false →
  isShuttingDown st = true →
  shutdown i o sig st = (Ok tt, st, [Debug (DbgShutdownSignal sig)]).
Proof. intros Hd Hs. msimpl. rewrite Hd. cbn. rewrite Hs. reflexivity. Qed.

Lemma shutdown_trigger_hook i o sig st :
  started o st = true → has_hook o = true →
  shutdown i o sig st =
    (Ok tt, set_pending (pending st ++ [i]) (arm i o (set_isShuttingDown true st)),
     [Debug (DbgShutdownSignal sig); Debug DbgShuttingDown]
       ++ arm_effects i o ++ [OnShutdownCall i]).
Proof.
  unfold started, has_hook, arm, arm_effects. intros [Hd Hs]%andb_prop Hh.
  apply negb_true_iff in Hd, Hs. msimpl. rewrite Hd. cbn. rewrite Hs. cbn.
  destruct (truthy (timeout o)); cbn; rewrite Hh; reflexivity.
Qed.

Lemma shutdown_trigger_cleanup i o sig st :
  started o st = true → has_hook o = false →
  registry_wf st →
  ∃ st1 es1, swept (arm i o (set_isShuttingDown true st)) st1 es1 ∧
    shutdown i o sig st =
      (Ok tt, set_closing (closing st1 ++ [i]) st1,
       [Debug (DbgShutdownSignal sig); Debug DbgShuttingDown]
         ++ arm_effects i o ++ es1
         ++ close_effects i (arm i o (set_isShuttingDown true st))).
Proof.
  unfold started, has_hook. intros [Hd Hs]%andb_prop Hh Hwf.
  apply negb_true_iff in Hd, Hs.
  destruct (cleanupHttp_spec i (arm i o (set_isShuttingDown true st)))
    as (st1 & es1 & Hsw & Hrun).
  { unfold arm. destruct (truthy (timeout o)); exact Hwf. }
  { unfold arm. destruct (truthy (timeout o)); reflexivity. }
  exists st1, es1. split; [done|].
  unfold shutdown. unfold arm, arm_effects in *.
  unfold debug, emit, modify, gets, skip, process_exit.
  unfold mbind, mret, M_bind, M_ret. rewrite Hd. cbn. rewrite Hs. cbn.
  destruct (truthy (timeout o)); cbn; rewrite Hh; cbn in Hrun |- *;
    rewrite Hrun; reflexivity.
Qed.

Lemma step_transition ev st st' es :
  status st = Alive → registry_wf st →
  (pending st ≠ [] → isShuttingDown st = true) →
  step ev st = (st', es) → transition st ev st' es.
Proof.
  intros Hal Hwf Hpw. unfold step. rewrite Hal. destruct ev as [opts|i sig|i|s|s|s|i|i|i|i|i]; cbn [listener].
  - msimpl. intros [= <- <-]. constructor.
  - unfold mbind at 1, M_bind at 1, gets at 1.
    destruct (instances st !! i) as [o|] eqn:Hi; [|msimpl; intros [= <- <-]; constructor].
    destruct (truthy (development o)) eqn:Hd.
    { rewrite (shutdown_development i o sig st Hd). cbn. intros [= <- <-].
      by apply (T_development st i o sig). }
    destruct (isShuttingDown st) eqn:Hs.
    { rewrite (shutdown_again i o sig st Hd Hs). cbn. intros [= <- <-].
      by apply (T_again st i o sig). }
    assert (Hst : started o st = true) by (unfold started; by rewrite Hd, Hs).
    destruct (has_hook o) eqn:Hh.
    { rewrite (shutdown_trigger_hook i o sig st Hst Hh). cbn. intros [= <- <-].
      by apply (T_trigger_hook st i o sig). }
    destruct (shutdown_trigger_cleanup i o sig st Hst Hh Hwf) as (st1 & es1 & Hsw & ->).
    cbn. intros [= <- <-]. by apply (T_trigger_cleanup st i o sig).
  - unfold mbind at 1, M_bind at 1, gets at 1.
    destruct (instances st !! i) as [o|] eqn:Hi; msimpl; intros [= <- <-];
      [by apply (T_connection st i o)|constructor].
  - unfold mbind at 1, M_bind at 1, gets at 1.
    destruct (sockets st !! s) as [sock|] eqn:Hi; msimpl; intros [= <- <-];
      [by apply (T_request st s sock)|constructor].
  - unfold mbind at 1, M_bind at 1, gets at 1.
    destruct (sockets st !! s) as [sock|] eqn:Hi; [|msimpl; intros [= <- <-]; constructor].
    msimpl. rewrite list_lookup_alter_eq, Hi. cbn.
    destruct (isShuttingDown st) eqn:Hs; cbn; intros [= <- <-].
    + by apply (T_finish_reap st s sock).
    + by apply (T_finish_keep st s sock).
  - unfold mbind at 1, M_bind at 1, gets at 1.
    destruct (sockets st !! s) as [sock|] eqn:Hi; msimpl; intros [= <- <-];
      [by apply (T_close st s sock)|constructor].
  - msimpl. destruct (instances st !! i) as [o|] eqn:Hi; [|intros [= <- <-]; constructor].
    case_bool_decide; cbn; intros [= <- <-]; [|constructor].
    by apply (T_timeout st i o).
  - unfold mbind at 1, M_bind at 1, gets at 1. case_bool_decide as Hp; [|msimpl; intros [= <- <-]; constructor].
    unfold mbind at 1, M_bind at 1, modify at 1.
    destruct (cleanupHttp_spec i (set_pending (remove_first i (pending st)) st))
      as (st1 & es1 & Hsw & ->).
    { exact Hwf. }
    { cbn. apply Hpw. intros E. rewrite E in Hp. by apply elem_of_nil in Hp. }
    cbn. intros [= <- <-]. by apply (T_resolved st i).
  - msimpl. case_bool_decide; intros [= <- <-]; [by constructor|constructor].
  - msimpl. case_bool_decide; cbn; intros [= <- <-]; [by constructor|constructor].
  - msimpl. case_bool_decide; cbn; intros [= <- <-]; [by constructor|constructor].
Qed.

(** ** The invariant *)

Lemma only_destroys_back (l l' : list socket) (s : nat) sock' :
  only_destroys l l' → l' !! s = Some sock' →
  ∃ sock, l !! s = Some sock ∧ _isIdle sock' = _isIdle sock ∧
    _connectionId sock' = _connectionId sock ∧ server_of sock' = server_of sock.
Proof.
  intros [Hlen H] Hs. destruct (l !! s) as [sock|] eqn:E.
  - destruct (H _ _ E) as (sock2 & E2 & ?). exists sock.
    assert (sock2 = sock') as -> by congruence. tauto.
  - apply lookup_ge_None in E. apply lookup_lt_Some in Hs. lia.
Qed.

Lemma lookup_alter_socket (f : socket → socket) (l : list socket) (s s' : nat) sock' :
  alter f s l !! s' = Some sock' →
  ∃ sock, l !! s' = Some sock ∧ (sock' = sock ∨ (s = s' ∧ sock' = f sock)).
Proof.
  destruct (decide (s = s')) as [->|Hne].
  - rewrite list_lookup_alter_eq. destruct (l !! s') as [sock|]; [|done].
    intros [= <-]. eauto.
  - rewrite list_lookup_alter_ne by done. eauto.
Qed.

Lemma remove_first_length i l :
  i ∈ l → S (length (remove_first i l)) = length l.
Proof.
  induction l as [|j l IH]; [by intros ?%elem_of_nil|].
  intros Hi. cbn. case_decide as E; [done|]. cbn. f_equal. apply IH.
  apply elem_of_cons in Hi as [->|Hi]; done.
Qed.

Lemma incr_min n :
  JS.incr (N.min (N.of_nat n) MAX_EXACT) = N.min (N.of_nat (S n)) MAX_EXACT.
Proof.
  unfold JS.incr. destruct (N.ltb_spec (N.min (N.of_nat n) MAX_EXACT) MAX_EXACT); lia.
Qed.

Lemma Inv_init : Inv init.
Proof.
  split; cbn; try done; lia.
Qed.

Lemma swept_Inv b st1 es1 l :
  swept b st1 es1 → Inv b → length (pending b) + length (closing b) + length l ≤ 1 →
  isShuttingDown b = true →
  Inv (set_closing (closing st1 ++ l) st1).
Proof.
  intros (_ & Hwf & (Hf & Hcc & Hin & Ht & Hp & Hcl & Hst) & Hod & _) HI Hlen Hsd.
  destruct HI as [_ I2 I3 I4 I5 I6 I7 I8].
  split; cbn.
  - exact Hwf.
  - rewrite Hcc, I2. by destruct Hod as [-> _].
  - intros s sock' Hs. destruct (only_destroys_back _ _ _ _ Hod Hs) as (sock & E & _ & -> & _).
    eauto.
  - intros s sock' Hs. destruct (only_destroys_back _ _ _ _ Hod Hs) as (sock & E & _ & _ & ->).
    rewrite Hin. eauto.
  - by rewrite Hst.
  - rewrite Hf, Hsd. done.
  - rewrite Hp, Hcl, length_app. lia.
  - by rewrite Ht.
Qed.

Lemma transition_Inv st ev st' es :
  transition st ev st' es → Inv st → Inv st'.
Proof.
  intros Htr HI. pose proof HI as [I1 I2 I3 I4 I5 I6 I7 I8].
  destruct Htr.
  - done.
  - split; cbn; try done. intros s sock Hs. rewrite length_app. specialize (I4 _ _ Hs). lia.
  - split; cbn; done.
  - done.
  - (* first trigger, hook *)
    apply andb_prop in H0 as [_ Hs%negb_true_iff]. destruct (I6 Hs) as (Et & Ep & Ec).
    unfold arm. destruct (truthy (timeout o)); split; cbn; try done; rewrite ?Et, ?Ep, ?Ec; cbn; lia.
  - (* first trigger, no hook *)
    apply andb_prop in H0 as [_ Hs%negb_true_iff]. destruct (I6 Hs) as (Et & Ep & Ec).
    eapply swept_Inv; [exact H2| | |].
    + unfold arm. destruct (truthy (timeout o)); split; cbn; try done; rewrite ?Et, ?Ep, ?Ec; cbn; lia.
    + unfold arm. destruct (truthy (timeout o)); cbn; rewrite ?Ep, ?Ec; cbn; lia.
    + unfold arm. by destruct (truthy (timeout o)).
  - (* connection *)
    split; cbn; try done.
    + intros k s Hk; cbn in Hk |- *. destruct (decide (connectionCounter st = k)) as [<-|Hne].
      * rewrite lookup_insert_eq in Hk. injection Hk as <-.
        exists (Socket true (connectionCounter st) false i). split; [|done].
        by rewrite lookup_app_r, Nat.sub_diag.
      * rewrite lookup_insert_ne in Hk by done. destruct (I1 _ _ Hk) as (sock & E & ?).
        exists sock. split; [|done]. by apply lookup_app_l_Some.
    + rewrite length_app, I2. cbn. rewrite Nat.add_1_r. apply incr_min.
    + intros s sock Hs. apply lookup_app_Some in Hs as [Hs|[Hge Hs]]; [eauto|].
      destruct (s - length (sockets st)) as [|n] eqn:E; [|done].
      cbn in Hs. injection Hs as <-. cbn. rewrite I2. f_equal. lia.
    + intros s sock Hs. apply lookup_app_Some in Hs as [Hs|[Hge Hs]]; [eauto|].
      destruct (s - length (sockets st)) as [|n] eqn:E; [|done].
      cbn in Hs. injection Hs as <-. cbn. by apply lookup_lt_Some in H.
  - (* request *)
    split; cbn; try done.
    + intros k s' Hk; cbn in Hk |- *. destruct (I1 _ _ Hk) as (sock' & E & ?).
      destruct (decide (s = s')) as [->|Hne].
      * exists (set_idle false sock'). by rewrite list_lookup_alter_eq, E.
      * exists sock'. by rewrite list_lookup_alter_ne.
    + by rewrite length_alter.
    + intros s' sock' Hs. apply lookup_alter_socket in Hs as (sock0 & E & [->|[_ ->]]); cbn; eauto.
    + intros s' sock' Hs. apply lookup_alter_socket in Hs as (sock0 & E & [->|[_ ->]]); cbn; eauto.
  - (* finish, reaped *)
    split; cbn; try done.
    + intros k s' Hk; cbn in Hk |- *. destruct (decide (_connectionId sock = k)) as [<-|Hne].
      { by rewrite lookup_delete_eq in Hk. }
      rewrite lookup_delete_ne in Hk by done. destruct (I1 _ _ Hk) as (sock' & E & ?).
      destruct (decide (s = s')) as [->|Hne'].
      * exists (set_destroyed (set_idle true sock')). by rewrite !list_lookup_alter_eq, E.
      * exists sock'. by rewrite !list_lookup_alter_ne.
    + by rewrite !length_alter.
    + intros s' sock' Hs. apply lookup_alter_socket in Hs as (sock0 & Hs & Hd).
      apply lookup_alter_socket in Hs as (sock1 & E & Hi).
      destruct Hd as [->|[_ ->]], Hi as [->|[_ ->]]; cbn; eauto.
    + intros s' sock' Hs. apply lookup_alter_socket in Hs as (sock0 & Hs & Hd).
      apply lookup_alter_socket in Hs as (sock1 & E & Hi).
      destruct Hd as [->|[_ ->]], Hi as [->|[_ ->]]; cbn; eauto.
  - (* finish, kept *)
    split; cbn; try done.
    + intros k s' Hk; cbn in Hk |- *. destruct (I1 _ _ Hk) as (sock' & E & ?).
      destruct (decide (s = s')) as [->|Hne].
      * exists (set_idle true sock'). by rewrite list_lookup_alter_eq, E.
      * exists sock'. by rewrite list_lookup_alter_ne.
    + by rewrite length_alter.
    + intros s' sock' Hs. apply lookup_alter_socket in Hs as (sock0 & E & [->|[_ ->]]); cbn; eauto.
    + intros s' sock' Hs. apply lookup_alter_socket in Hs as (sock0 & E & [->|[_ ->]]); cbn; eauto.
  - (* close *)
    split; cbn; try done.
    intros k s' Hk; cbn in Hk |- *. destruct (decide (_connectionId sock = k)) as [<-|Hne].
    { by rewrite lookup_delete_eq in Hk. }
    rewrite lookup_delete_ne in Hk by done. eauto.
  - (* timer *)
    split; cbn; try done.
    + intros Hs. destruct (I6 Hs) as (Et & _). rewrite Et in H0. by apply elem_of_nil in H0.
    + apply remove_first_length in H0. lia.
  - (* resolved *)
    assert (Hsd : isShuttingDown st = true).
    { destruct (isShuttingDown st) eqn:E; [done|]. destruct (I6 eq_refl) as (_ & Ep & _).
      rewrite Ep in H. by apply elem_of_nil in H. }
    pose proof (remove_first_length _ _ H) as Hl.
    eapply swept_Inv; [exact H0| | |]; cbn; [|lia|done].
    split; cbn; try done.
    * intros Hs. congruence.
    * lia.
  - (* rejected *)
    pose proof (remove_first_length _ _ H) as Hl.
    split; cbn; try done.
    + intros Hs. destruct (I6 Hs) as (_ & Ep & _). rewrite Ep in H. by apply elem_of_nil in H.
    + lia.
  - (* closed *)
    pose proof (remove_first_length _ _ H) as Hl.
    split; cbn; try done.
    + intros Hs. destruct (I6 Hs) as (_ & _ & Ec). rewrite Ec in H. by apply elem_of_nil in H.
    + lia.
  - (* rejected, and raised by the runtime *)
    pose proof (remove_first_length _ _ H) as Hl.
    split; cbn; try done.
    + intros Hs. destruct (I6 Hs) as (_ & Ep & _). rewrite Ep in H. by apply elem_of_nil in H.
    + lia.
Qed.

Lemma step_rule ev st :
  Inv st → status st = Alive →
  transition st ev (step ev st).1 (step ev st).2.
Proof.
  intros HI Hal. apply step_transition; [done|apply HI| |by destruct (step ev st)].
  intros Hp. destruct (isShuttingDown st) eqn:E; [done|].
  by destruct (inv_running st HI E) as (_ & ? & _).
Qed.

Lemma step_Inv ev st : Inv st → Inv (step ev st).1.
Proof.
  intros HI. destruct (decide (status st = Alive)) as [Hal|Hd].
  - eapply transition_Inv; [by apply step_rule|done].
  - by rewrite step_dead.
Qed.

Lemma run_cons ev evs st :
  run (ev :: evs) st =
    ((run evs (step ev st).1).1, (step ev st).2 ++ (run evs (step ev st).1).2).
Proof. cbn. destruct (step ev st) as [st1 es1]. cbn. by destruct (run evs st1). Qed.

Lemma run_app evs1 evs2 st :
  run (evs1 ++ evs2) st =
    ((run evs2 (run evs1 st).1).1, (run evs1 st).2 ++ (run evs2 (run evs1 st).1).2).
Proof.
  revert st. induction evs1 as [|ev evs1 IH]; intros st.
  - cbn. by destruct (run evs2 st).
  - rewrite <- app_comm_cons, !run_cons, IH. cbn. by rewrite app_assoc.
Qed.

Lemma run_Inv evs st : Inv st → Inv (run evs st).1.
Proof.
  revert st. induction evs as [|ev evs IH]; intros st HI; [done|].
  rewrite run_cons. cbn. apply IH. by apply step_Inv.
Qed.

Lemma reachable_Inv st : reachable st → Inv st.
Proof. intros [evs <-]. apply run_Inv, Inv_init. Qed.

(** ** Counting *)

Lemma count_app p es1 es2 : count p (es1 ++ es2) = count p es1 + count p es2.
Proof. unfold count. by rewrite List.filter_app, length_app. Qed.

Lemma count_cons p e es :
  count p (e :: es) = (if p e then 1 else 0) + count p es.
Proof. unfold count. cbn. by destruct (p e). Qed.

Lemma count_none p es : (∀ e, e ∈ es → p e = false) → count p es = 0.
Proof.
  induction es as [|e es IH]; intros H; [done|].
  rewrite count_cons, (H e), IH; [done| |left]. intros e' He'. apply H. by right.
Qed.

Lemma count_pos p es e : e ∈ es → p e = true → 1 ≤ count p es.
Proof.
  induction es as [|e' es IH]; [by intros ?%elem_of_nil|].
  intros [->|Hin]%elem_of_cons Hp; rewrite count_cons.
  - rewrite Hp. lia.
  - specialize (IH Hin Hp). lia.
Qed.

Lemma not_in_by_count p es e : count p es = 0 → p e = true → e ∉ es.
Proof. intros Hc Hp Hin. pose proof (count_pos p es e Hin Hp). lia. Qed.

Lemma count_destroys p (l : list nat) :
  (∀ s, p (SocketDestroy s) = false) → count p (SocketDestroy <$> l) = 0.
Proof.
  intros H. apply count_none. intros e (s & -> & _)%list_elem_of_fmap. apply H.
Qed.

Lemma count_listeners_gen p n (l : list options) :
  (∀ j, p (FinallyCall j) = false) → p (Debug DbgClosed) = false →
  count p (mjoin (imap (λ j, exit_listener (n + j)) l)) = 0.
Proof.
  intros Hf Hd. apply count_none. intros e He.
  apply list_elem_of_join in He as (es & He & Hes).
  apply elem_of_lookup_imap in Hes as (j & o & -> & _).
  unfold exit_listener in He. destruct (_ && _) in He; cbn in He.
  - apply elem_of_cons in He as [->|He]; [apply Hf|].
    apply list_elem_of_singleton in He as ->. done.
  - apply list_elem_of_singleton in He as ->. done.
Qed.

Lemma count_listeners p (l : list options) :
  (∀ j, p (FinallyCall j) = false) → p (Debug DbgClosed) = false →
  count p (mjoin (imap exit_listener l)) = 0.
Proof. apply (count_listeners_gen p 0). Qed.

Lemma isFunction_idem v : truthy v && isFunction v = isFunction v.
Proof. unfold isFunction. by destruct (truthy v). Qed.

Lemma count_finally_gen i (l : list options) : ∀ n,
  count (is_finally i) (mjoin (imap (λ j, exit_listener (n + j)) l)) =
    if decide (n ≤ i) then
      match l !! (i - n) with
      | Some o => if isFunction (finally o) then 1 else 0
      | None => 0
      end
    else 0.
Proof.
  induction l as [|o l IH]; intros n.
  - cbn. by destruct (decide _), (i - n).
  - cbn [imap mjoin list_join]. rewrite count_app.
    rewrite (imap_ext _ (λ j, exit_listener (S n + j))); last first.
    { intros j x _. cbn. f_equal. lia. }
    rewrite IH. unfold exit_listener at 1. rewrite isFunction_idem.
    destruct (decide (n ≤ i)) as [Hle|Hgt].
    + destruct (decide (S n ≤ i)) as [Hle'|Hgt'].
      * replace (i - n) with (S (i - S n)) by lia. cbn [lookup list_lookup].
        assert (Nat.eqb (n + 0) i = false) as E by (apply Nat.eqb_neq; lia).
        destruct (isFunction (finally o)); rewrite ?count_app, ?count_cons; cbn; rewrite ?E; done.
      * assert (i = n) as -> by lia. rewrite Nat.sub_diag. cbn [lookup list_lookup].
        assert (Nat.eqb (n + 0) n = true) as E by (apply Nat.eqb_eq; lia).
        destruct (isFunction (finally o)); rewrite ?count_app, ?count_cons; cbn; rewrite ?E; done.
    + rewrite decide_False by lia.
      assert (Nat.eqb (n + 0) i = false) as E by (apply Nat.eqb_neq; lia).
      destruct (isFunction (finally o)); rewrite ?count_app, ?count_cons; cbn; rewrite ?E; done.
Qed.

Lemma count_finally i (l : list options) :
  count (is_finally i) (mjoin (imap exit_listener l)) =
    match l !! i with
    | Some o => if isFunction (finally o) then 1 else 0
    | None => 0
    end.
Proof.
  pose proof (count_finally_gen i l 0) as H. rewrite decide_True in H by lia.
  by rewrite Nat.sub_0_r in H.
Qed.

Lemma count_nil p : count p [] = 0.
Proof. done. Qed.

Ltac counts :=
  unfold exit_effects, close_effects;
  repeat first
    [ rewrite count_app | rewrite count_cons | rewrite count_nil
    | rewrite count_destroys by done
    | rewrite count_listeners by done
    | rewrite count_finally ];
  cbn [is_entered is_timer is_hook is_sweep is_close is_destroy is_exit is_finally].

Ltac use_flags :=
  repeat match goal with
  | H : ?a = false → _, E : ?a = false |- _ => specialize (H E)
  | H : ?a = true → _, E : ?a = true |- _ => specialize (H E)
  | H : _ ∧ _ |- _ => destruct H
  end.

Lemma arm_effects_counts i o :
  count is_entered (arm_effects i o) = 0 ∧ count is_timer (arm_effects i o) ≤ 1 ∧
  count is_hook (arm_effects i o) = 0 ∧ count is_sweep (arm_effects i o) = 0 ∧
  count is_close (arm_effects i o) = 0 ∧ count is_exit (arm_effects i o) = 0 ∧
  count is_destroy (arm_effects i o) = 0 ∧
  ∀ j, count (is_finally j) (arm_effects i o) = 0.
Proof. unfold arm_effects. destruct (truthy (timeout o)); cbn; repeat split; lia. Qed.

Lemma arm_fields i o st :
  isShuttingDown (arm i o st) = isShuttingDown st ∧
  connections (arm i o st) = connections st ∧
  connectionCounter (arm i o st) = connectionCounter st ∧
  sockets (arm i o st) = sockets st ∧ instances (arm i o st) = instances st ∧
  pending (arm i o st) = pending st ∧ closing (arm i o st) = closing st ∧
  status (arm i o st) = status st.
Proof. unfold arm. destruct (truthy (timeout o)); done. Qed.

Lemma transition_TInv st ev st' es' es :
  transition st ev st' es' → Inv st → status st = Alive →
  TInv st es → TInv st' (es ++ es').
Proof.
  intros Htr HI Hal [T1 T2 T3 T4 T5 T6 T7 T8].
  destruct (T7 Hal) as [Tx Tf]. clear T8 T7.
  pose proof (inv_running st HI) as Hrun.
  assert (Hquiet : ∀ st2, isShuttingDown st2 = isShuttingDown st →
            pending st2 = pending st → status st2 = status st → TInv st2 (es ++ [])).
  { intros st2 E1 E2 E3. rewrite app_nil_r.
    split; rewrite ?E1, ?E2, ?E3; try done. intros c Hc. congruence. }
  destruct Htr; try (by apply Hquiet).
  - (* development *)
    split; cbn; intros; counts; use_flags; try lia; try done; try congruence.
    split; [lia|]. intros j o' Hj. counts. rewrite Hj, Tf. done.
  - split; cbn; intros; counts; use_flags; try lia; try done; try congruence.
    split; [lia|]. intros j. counts. by rewrite Tf.
  - (* first trigger, hook *)
    apply andb_prop in H0 as [_ Hs%negb_true_iff].
    destruct (T1 Hs) as (E1 & E2 & E3 & E4 & E5). destruct (Hrun Hs) as (R1 & R2 & R3).
    destruct (arm_effects_counts i o) as (A1 & A2 & A3 & A4 & A5 & A6 & A7 & A8).
    destruct (arm_fields i o (set_isShuttingDown true st)) as (F1 & F2 & F3 & F4 & F5 & F6 & F7 & F8).
    split; cbn; rewrite ?F1, ?F6, ?F8; cbn; intros; counts; rewrite ?R2; cbn;
      try lia; try done; try congruence.
    split; [lia|]. intros j. counts. rewrite A8, Tf. done.
  - (* first trigger, no hook *)
    apply andb_prop in H0 as [_ Hs%negb_true_iff].
    destruct (T1 Hs) as (E1 & E2 & E3 & E4 & E5). destruct (Hrun Hs) as (R1 & R2 & R3).
    destruct (arm_effects_counts i o) as (A1 & A2 & A3 & A4 & A5 & A6 & A7 & A8).
    destruct (arm_fields i o (set_isShuttingDown true st)) as (F1 & F2 & F3 & F4 & F5 & F6 & F7 & F8).
    destruct H2 as (-> & _ & (Hf & _ & Hin & _ & Hp & _ & Hst) & _).
    split; cbn; rewrite ?Hf, ?Hp, ?Hst, ?F1, ?F6, ?F8; cbn; intros; counts; rewrite ?R2; cbn;
      try lia; try done; try congruence.
    split; [lia|]. intros j. counts. rewrite A8, Tf. done.
  - (* finish, reaped *)
    split; cbn; intros; counts; use_flags; try lia; try done; try congruence.
    split; [lia|]. intros j. counts. by rewrite Tf.
  - (* timer *)
    split; cbn; intros; counts; use_flags; try lia; try done; try congruence.
    split; [lia|]. intros j o' Hj. counts. rewrite Hj, Tf. done.
  - (* resolved *)
    assert (Hsd : isShuttingDown st = true).
    { destruct (isShuttingDown st) eqn:E; [done|]. destruct (Hrun eq_refl) as (_ & Ep & _).
      rewrite Ep in H. by apply elem_of_nil in H. }
    pose proof (remove_first_length _ _ H) as Hl.
    destruct H0 as (-> & _ & (Hf & _ & Hin & _ & Hp & _ & Hst) & _). cbn in Hf, Hp, Hst.
    split; cbn; rewrite ?Hf, ?Hp, ?Hst; intros; counts; use_flags; try lia; try done; try congruence.
    split; [lia|]. intros j. counts. by rewrite Tf.
  - (* rejected *)
    pose proof (remove_first_length _ _ H) as Hl.
    rewrite app_nil_r. split; cbn; try done; try lia. intros c Hc. congruence.
  - (* closed *)
    split; cbn; intros; counts; use_flags; try lia; try done; try congruence.
    split; [lia|]. intros j o' Hj. counts. rewrite Hj, Tf. done.
  - (* rejected, and raised by the runtime *)
    pose proof (remove_first_length _ _ H) as Hl.
    split; cbn; intros; counts; use_flags; try lia; try done; try congruence.
Qed.

Lemma TInv_init : TInv init [].
Proof. split; cbn; try done; lia. Qed.

Lemma step_TInv ev st es :
  Inv st → TInv st es → TInv (step ev st).1 (es ++ (step ev st).2).
Proof.
  intros HI HT. destruct (decide (status st = Alive)) as [Hal|Hd].
  - eapply transition_TInv; [by apply step_rule|done..].
  - rewrite step_dead by done. cbn. by rewrite app_nil_r.
Qed.

Lemma run_TInv evs : ∀ st es,
  Inv st → TInv st es → TInv (run evs st).1 (es ++ (run evs st).2).
Proof.
  induction evs as [|ev evs IH]; intros st es HI HT.
  - cbn. by rewrite app_nil_r.
  - rewrite run_cons. cbn. rewrite app_assoc. apply IH; [by apply step_Inv|by apply step_TInv].
Qed.

Lemma run_init_TInv evs : TInv (run evs init).1 (run evs init).2.
Proof. apply (run_TInv evs init []); [apply Inv_init|apply TInv_init]. Qed.

(** ** The turns of the loop, in closed form *)

Lemma step_signal i o sig st :
  status st = Alive → instances st !! i = Some o →
  step (EvSignal i sig) st =
    match shutdown i o sig st with
    | (Throw, st', es) => (set_status Uncaught st', es)
    | (_, st', es) => (st', es)
    end.
Proof.
  intros Hal Hi. unfold step. rewrite Hal. cbn [listener].
  unfold mbind at 1, M_bind at 1, gets at 1. rewrite Hi.
  destruct (shutdown i o sig st) as [[[] ?] ?]; cbn; done.
Qed.

Lemma step_development i o sig st :
  status st = Alive → instances st !! i = Some o →
  truthy (development o) = true →
  step (EvSignal i sig) st =
    (set_status (Exited 0) st,
     [Debug (DbgShutdownSignal sig); Debug DbgDevMode] ++ exit_effects 0 st).
Proof.
  intros Hal Hi Hd. by rewrite (step_signal i o), shutdown_development.
Qed.

Lemma step_again i o sig st :
  status st = Alive → instances st !! i = Some o →
  truthy (development o) = false → isShuttingDown st = true →
  step (EvSignal i sig) st = (st, [Debug (DbgShutdownSignal sig)]).
Proof.
  intros Hal Hi Hd Hs. by rewrite (step_signal i o), shutdown_again.
Qed.

Lemma step_trigger_hook i o sig st :
  status st = Alive → instances st !! i = Some o →
  started o st = true → has_hook o = true →
  step (EvSignal i sig) st =
    (set_pending (pending st ++ [i]) (arm i o (set_isShuttingDown true st)),
     [Debug (DbgShutdownSignal sig); Debug DbgShuttingDown]
       ++ arm_effects i o ++ [OnShutdownCall i]).
Proof.
  intros Hal Hi Hst Hh. by rewrite (step_signal i o), shutdown_trigger_hook.
Qed.

Lemma step_trigger_cleanup i o sig st :
  status st = Alive → instances st !! i = Some o →
  started o st = true → has_hook o = false → registry_wf st →
  ∃ st1 es1, swept (arm i o (set_isShuttingDown true st)) st1 es1 ∧
    step (EvSignal i sig) st =
      (set_closing (closing st1 ++ [i]) st1,
       [Debug (DbgShutdownSignal sig); Debug DbgShuttingDown]
         ++ arm_effects i o ++ es1
         ++ close_effects i (arm i o (set_isShuttingDown true st))).
Proof.
  intros Hal Hi Hst Hh Hwf.
  destruct (shutdown_trigger_cleanup i o sig st Hst Hh Hwf) as (st1 & es1 & Hsw & Hrun).
  exists st1, es1. split; [done|]. by rewrite (step_signal i o), Hrun.
Qed.

Lemma step_resolved i st :
  status st = Alive → i ∈ pending st → registry_wf st →
  isShuttingDown st = true →
  ∃ st1 es1, swept (set_pending (remove_first i (pending st)) st) st1 es1 ∧
    step (EvHookResolved i) st =
      (set_closing (closing st1 ++ [i]) st1, es1 ++ close_effects i st).
Proof.
  intros Hal Hp Hwf Hs.
  destruct (cleanupHttp_spec i (set_pending (remove_first i (pending st)) st))
    as (st1 & es1 & Hsw & Hrun); [done..|].
  exists st1, es1. split; [done|].
  unfold step. rewrite Hal. cbn [listener].
  unfold mbind at 1, M_bind at 1, gets at 1. rewrite bool_decide_eq_true_2 by done.
  unfold mbind at 1, M_bind at 1, modify at 1. rewrite Hrun. done.
Qed.

Lemma step_rejected i st :
  status st = Alive → i ∈ pending st →
  step (EvHookRejected i) st = (set_pending (remove_first i (pending st)) st, []).
Proof.
  intros Hal Hp. unfold step. rewrite Hal. cbn [listener]. msimpl.
  case_bool_decide; [done|contradiction].
Qed.

Lemma step_unhandled i st :
  status st = Alive → i ∈ pending st →
  step (EvUnhandledRejection i) st =
    (set_status Unhandled (set_pending (remove_first i (pending st)) st),
     mjoin (imap exit_listener (instances st))).
Proof.
  intros Hal Hp. unfold step. rewrite Hal. cbn [listener]. msimpl.
  case_bool_decide; [done|contradiction].
Qed.

Lemma step_timeout i o st :
  status st = Alive → instances st !! i = Some o → i ∈ timers st →
  step (EvTimeout i) st =
    (set_status (Exited 1) (set_timers (remove_first i (timers st)) st),
     Debug (DbgForceful (timeout o)) :: exit_effects 1 st).
Proof.
  intros Hal Hi Ht. unfold step. rewrite Hal. cbn [listener]. msimpl. rewrite Hi.
  case_bool_decide; [done|contradiction].
Qed.

Lemma step_timeout_unarmed i st :
  i ∉ timers st → step (EvTimeout i) st = (st, []).
Proof.
  intros Ht. unfold step. destruct (status st); [|done..]. cbn [listener]. msimpl.
  destruct (instances st !! i); [|done]. case_bool_decide; [contradiction|done].
Qed.

Lemma step_closed i st :
  status st = Alive → i ∈ closing st →
  step (EvServerClosed i) st =
    (set_status (Exited 0) (set_closing (remove_first i (closing st)) st),
     exit_effects 0 st).
Proof.
  intros Hal Hc. unfold step. rewrite Hal. cbn [listener]. msimpl.
  case_bool_decide; [done|contradiction].
Qed.

Lemma step_closed_not_closing i st :
  i ∉ closing st → step (EvServerClosed i) st = (st, []).
Proof.
  intros Hc. unfold step. destruct (status st); [|done..]. cbn [listener]. msimpl.
  case_bool_decide; [contradiction|done].
Qed.

Lemma step_finish_reap s sock st :
  status st = Alive → sockets st !! s = Some sock → isShuttingDown st = true →
  step (EvFinish s) st =
    (set_connections (delete (_connectionId sock) (connections st))
       (set_sockets
          (alter set_destroyed s (alter (set_idle true) s (sockets st))) st),
     [SocketDestroy s]).
Proof.
  intros Hal Hs Hsd. unfold step. rewrite Hal. cbn [listener]. msimpl. rewrite Hs. cbn.
  rewrite list_lookup_alter_eq, Hs. cbn. rewrite Hsd. done.
Qed.

Lemma step_finish_keep s sock st :
  status st = Alive → sockets st !! s = Some sock → isShuttingDown st = false →
  step (EvFinish s) st =
    (set_sockets (alter (set_idle true) s (sockets st)) st, []).
Proof.
  intros Hal Hs Hsd. unfold step. rewrite Hal. cbn [listener]. msimpl. rewrite Hs. cbn.
  rewrite list_lookup_alter_eq, Hs. cbn. rewrite Hsd. done.
Qed.

Lemma step_instantiate opts st :
  status st = Alive →
  step (EvGracefulShutdown opts) st =
    (set_instances
       (instances st ++ [objectAssign_defaults (default empty_opts opts)]) st, []).
Proof. intros Hal. unfold step. rewrite Hal. done. Qed.

Lemma step_connection i o st :
  status st = Alive → instances st !! i = Some o →
  step (EvConnection i) st =
    (set_connections
       (<[connectionCounter st := length (sockets st)]> (connections st))
       (set_sockets (sockets st ++ [Socket true (connectionCounter st) false i])
          (set_connectionCounter (JS.incr (connectionCounter st)) st)), []).
Proof. intros Hal Hi. unfold step. rewrite Hal. cbn [listener]. msimpl. by rewrite Hi. Qed.

(** * The claims *)

(** ** Development mode *)

(** C7: when [development] is truthy, a trigger logs two lines and calls
    [process.exit(0)]: the process ends with status 0, the module variables,
    the sockets, the timers and the servers are left as they were, and no
    socket is destroyed, no sweep runs, the hook is not called, no timer is
    armed and [server.close] is not called. *)
Theorem development_trigger_exits i o sig st :
  status st = Alive → instances st !! i = Some o →
  truthy (development o) = true →
  step (EvSignal i sig) st =
    (set_status (Exited 0) st,
     [Debug (DbgShutdownSignal sig); Debug DbgDevMode; ProcessExit 0]
       ++ mjoin (imap exit_listener (instances st))) ∧
  let es := (step (EvSignal i sig) st).2 in
  count is_destroy es = 0 ∧ count is_sweep es = 0 ∧ count is_hook es = 0 ∧
  count is_timer es = 0 ∧ count is_close es = 0 ∧ count is_exit es = 1.
Proof.
  intros Hal Hi Hd. rewrite (step_development i o sig st Hal Hi Hd).
  split; [done|]. cbn [snd]. repeat split; counts; lia.
Qed.

Lemma development_trigger_exits_witness :
  status (serving (Some in_development)) = Alive ∧
  (step (EvSignal 0 "SIGINT") (serving (Some in_development))).1 =
    set_status (Exited 0) (serving (Some in_development)).
Proof.
  assert (H1 : status (serving (Some in_development)) = Alive)
    by (vm_compute; reflexivity).
  split; [exact H1|].
  destruct (development_trigger_exits 0 (objectAssign_defaults in_development)
              "SIGINT" (serving (Some in_development)) H1) as [-> _];
    [vm_compute; reflexivity..|reflexivity].
Defined.

(** ** A request finishes *)

(** C6: when a response finishes on socket [s], the socket's idle flag is
    set; if the process is shutting down the socket is destroyed at once and
    no registry entry refers to it any more, otherwise nothing is destroyed
    and the registry is left as it was. *)
Theorem finish_marks_idle_and_reaps st s sock :
  reachable st → status st = Alive → sockets st !! s = Some sock →
  let st' := (step (EvFinish s) st).1 in
  let es := (step (EvFinish s) st).2 in
  (∃ sock', sockets st' !! s = Some sock' ∧ _isIdle sock' = true ∧
     destroyed sock' = (isShuttingDown st || destroyed sock)) ∧
  (isShuttingDown st = true →
     es = [SocketDestroy s] ∧
     connections st' = delete (_connectionId sock) (connections st) ∧
     ∀ k, connections st' !! k ≠ Some s) ∧
  (isShuttingDown st = false →
     es = [] ∧ connections st' = connections st).
Proof.
  intros Hr Hal Hs. apply reachable_Inv in Hr. cbn zeta.
  destruct (isShuttingDown st) eqn:Hsd.
  - rewrite (step_finish_reap s sock st Hal Hs Hsd). cbn. split; [|split; [|done]].
    + exists (set_destroyed (set_idle true sock)).
      by rewrite !list_lookup_alter_eq, Hs.
    + intros _. split; [done|]. split; [done|]. intros k Hk.
      destruct (decide (_connectionId sock = k)) as [<-|Hne].
      * by rewrite lookup_delete_eq in Hk.
      * rewrite lookup_delete_ne in Hk by done.
        destruct (inv_registry st Hr _ _ Hk) as (sock' & Hs' & Hid). congruence.
  - rewrite (step_finish_keep s sock st Hal Hs Hsd). cbn. split; [|split; [done|done]].
    exists (set_idle true sock). by rewrite list_lookup_alter_eq, Hs.
Qed.

Lemma finish_marks_idle_and_reaps_witness :
  reachable (step (EvSignal 0 "SIGTERM") (serving None)).1 ∧
  (step (EvFinish 1) (step (EvSignal 0 "SIGTERM") (serving None)).1).2
    = [SocketDestroy 1].
Proof.
  assert (Hr : reachable (step (EvSignal 0 "SIGTERM") (serving None)).1).
  { exists [EvGracefulShutdown None; EvConnection 0; EvConnection 0; EvRequest 1;
            EvSignal 0 "SIGTERM"]. vm_compute. reflexivity. }
  split; [exact Hr|].
  destruct (finish_marks_idle_and_reaps
              (step (EvSignal 0 "SIGTERM") (serving None)).1 1
              (Socket false 1 false 0) Hr) as (_ & Hreap & _);
    [vm_compute; reflexivity..|].
  apply Hreap. vm_compute. reflexivity.
Defined.

(** ** The sweep *)

(** C2: with one idle and one busy connection registered, the sweep destroys
    the idle one only and unregisters it, yet the line it logs under
    'Connections destroyed' carries 2, the number of entries the loop went
    through. *)
Theorem sweep_counts_entries_not_reaps :
  let st := serving None in
  let st' := (step (EvSignal 0 "SIGTERM") st).1 in
  let es := (step (EvSignal 0 "SIGTERM") st).2 in
  size (connections st) = 2 ∧
  es = [Debug (DbgShutdownSignal "SIGTERM"); Debug DbgShuttingDown;
        SetTimeout 0 (JNum 30000); SocketDestroy 0;
        Debug (DbgConnectionsDestroyed 2); Debug (DbgConnectionCounter 2);
        ServerClose 0] ∧
  count is_destroy es = 1 ∧
  connections st' !! 0%N = None ∧ connections st' !! 1%N = Some 1.
Proof. cbn zeta. repeat split; vm_compute; reflexivity. Qed.

(** ** The forced-exit timer *)

Lemma no_timer_step ev st :
  Inv st → timers st = [] → isShuttingDown st = true → status st ≠ Exited 1 →
  let st' := (step ev st).1 in
  timers st' = [] ∧ isShuttingDown st' = true ∧ status st' ≠ Exited 1.
Proof.
  intros HI Ht Hs Hx. cbn zeta.
  destruct (decide (status st = Alive)) as [Hal|Hd]; [|by rewrite step_dead].
  pose proof (step_rule ev st HI Hal) as Htr.
  destruct Htr; cbn; try done.
  - apply andb_prop in H0 as [_ Hf%negb_true_iff]. congruence.
  - apply andb_prop in H0 as [_ Hf%negb_true_iff]. congruence.
  - rewrite Ht in H0. by apply elem_of_nil in H0.
  - destruct H0 as (_ & _ & (Hf & _ & _ & Htm & _ & _ & Hst) & _). cbn in *.
    rewrite Hf, Htm, Hst. done.
Qed.

Lemma no_timer_run evs : ∀ st,
  Inv st → timers st = [] → isShuttingDown st = true → status st ≠ Exited 1 →
  status (run evs st).1 ≠ Exited 1.
Proof.
  induction evs as [|ev evs IH]; intros st HI Ht Hs Hx; [done|].
  rewrite run_cons. cbn.
  destruct (no_timer_step ev st HI Ht Hs Hx) as (? & ? & ?).
  apply IH; [by apply step_Inv|done..].
Qed.

(** C3, as the code has it: on the first trigger outside development mode,
    no timer is armed when [options.timeout] is falsy (0 in particular), and
    the process is then never ended by [process.exit(1)]; a timeout that is
    absent from
    [opts] takes the default 30000 and arms a timer of that duration; any
    other truthy timeout arms a timer of the configured duration.  An armed
    timer that fires exits the process with status 1, and fires once. *)
Theorem forced_exit_timer (opts : opts_obj) st i sig :
  let o := objectAssign_defaults opts in
  reachable st → status st = Alive → instances st !! i = Some o →
  started o st = true →
  let st' := (step (EvSignal i sig) st).1 in
  let es := (step (EvSignal i sig) st).2 in
  match o_timeout opts with
  | None =>
      SetTimeout i (JNum 30000) ∈ es ∧ count is_timer es = 1 ∧ timers st' = [i]
  | Some v =>
      if truthy v
      then SetTimeout i v ∈ es ∧ count is_timer es = 1 ∧ timers st' = [i]
      else count is_timer es = 0 ∧ timers st' = [] ∧
           ∀ evs, status (run evs st').1 ≠ Exited 1
  end ∧
  ∀ st2, status st2 = Alive → instances st2 !! i = Some o → i ∈ timers st2 →
    status (step (EvTimeout i) st2).1 = Exited 1 ∧
    ProcessExit 1 ∈ (step (EvTimeout i) st2).2 ∧
    timers (step (EvTimeout i) st2).1 = remove_first i (timers st2).
Proof.
  intros o Hr Hal Hi Hst. apply reachable_Inv in Hr. cbn zeta.
  split; [|intros st2 Hal2 Hi2 Ht2; rewrite (step_timeout i o st2 Hal2 Hi2 Ht2);
           cbn; split; [done|split; [|done]]; right; left].
  pose proof Hst as Hst'. apply andb_prop in Hst' as [_ Hs%negb_true_iff].
  destruct (inv_running st Hr Hs) as (Et & Ep & Ec).
  assert (Hshape : ∃ st1 es1 es2,
    step (EvSignal i sig) st =
      (st1, [Debug (DbgShutdownSignal sig); Debug DbgShuttingDown]
              ++ arm_effects i o ++ es1 ++ es2) ∧
    timers st1 = timers (arm i o (set_isShuttingDown true st)) ∧
    count is_timer es1 = 0 ∧ count is_timer es2 = 0).
  { destruct (has_hook o) eqn:Hh.
    - rewrite (step_trigger_hook i o sig st Hal Hi Hst Hh).
      eexists _, [], [OnShutdownCall i]. split; [done|]. split; [|done].
      cbn. unfold arm. by destruct (truthy (timeout o)).
    - destruct (step_trigger_cleanup i o sig st Hal Hi Hst Hh (inv_registry st Hr))
        as (st1 & es1 & Hsw & ->).
      eexists _, es1, _. split; [done|].
      destruct Hsw as (-> & _ & (_ & _ & _ & Htm & _) & _).
      split; [done|]. split; counts; done. }
  destruct Hshape as (st1 & es1 & es2 & Heq & Htm & C1 & C2).
  pose proof (step_Inv (EvSignal i sig) st Hr) as HI'.
  assert (Hsd' : isShuttingDown (step (EvSignal i sig) st).1 = true).
  { destruct (isShuttingDown (step (EvSignal i sig) st).1) eqn:E; [done|].
    destruct (has_hook o) eqn:Hh.
    - rewrite (step_trigger_hook i o sig st Hal Hi Hst Hh) in E. cbn in E.
      unfold arm in E. by destruct (truthy (timeout o)).
    - destruct (step_trigger_cleanup i o sig st Hal Hi Hst Hh (inv_registry st Hr))
        as (st1' & es1' & Hsw & Heq').
      rewrite Heq' in E. cbn in E.
      destruct Hsw as (_ & _ & (Hf & _) & _). rewrite Hf in E.
      unfold arm in E. by destruct (truthy (timeout o)). }
  assert (Hal' : status (step (EvSignal i sig) st).1 ≠ Exited 1).
  { destruct (has_hook o) eqn:Hh.
    - rewrite (step_trigger_hook i o sig st Hal Hi Hst Hh). cbn.
      unfold arm. destruct (truthy (timeout o)); cbn; congruence.
    - destruct (step_trigger_cleanup i o sig st Hal Hi Hst Hh (inv_registry st Hr))
        as (st1' & es1' & Hsw & Heq').
      rewrite Heq'. cbn. destruct Hsw as (_ & _ & (_ & _ & _ & _ & _ & _ & Hs1) & _).
      rewrite Hs1. unfold arm. destruct (truthy (timeout o)); cbn; congruence. }
  revert HI' Hsd' Hal'. rewrite Heq. cbn [fst snd]. intros HI' Hsd' Hal'.
  rewrite Htm. unfold arm, arm_effects. subst o. cbn [timeout objectAssign_defaults].
  destruct (o_timeout opts) as [v|] eqn:Eo; cbn [default from_option id].
  - destruct (truthy v) eqn:Hv; rewrite ?Et; cbn [app].
    + split; [|split; [counts; lia|cbn; by rewrite Et]]. do 2 right. left.
    + split; [counts; lia|]. split; [cbn; by rewrite Et|]. intros evs.
      apply no_timer_run; try done. rewrite Htm. unfold arm.
      cbn [timeout objectAssign_defaults]. rewrite Eo.
      cbn [default from_option id]. rewrite Hv. cbn. by rewrite Et.
  - change (truthy (JNum 30000)) with true. cbn iota.
    split; [|split; [counts; lia|cbn; by rewrite Et]]. do 2 right. left.
Qed.

Lemma forced_exit_timer_witness :
  reachable (serving (Some timeout_zero)) ∧
  count is_timer (step (EvSignal 0 "SIGTERM") (serving (Some timeout_zero))).2 = 0 ∧
  ∀ evs,
    status (run evs (step (EvSignal 0 "SIGTERM") (serving (Some timeout_zero))).1).1
      ≠ Exited 1.
Proof.
  assert (Hr : reachable (serving (Some timeout_zero))).
  { exists [EvGracefulShutdown (Some timeout_zero); EvConnection 0; EvConnection 0;
            EvRequest 1]. vm_compute. reflexivity. }
  split; [exact Hr|].
  destruct (forced_exit_timer timeout_zero (serving (Some timeout_zero)) 0 "SIGTERM" Hr)
    as [(Hc & _ & Hn) _]; [vm_compute; reflexivity..|].
  split; [exact Hc|exact Hn].
Defined.

(** C3 as stated fails: with no [timeout] in [opts] (here with no [opts] at
    all) the trigger arms a timer of 30000 ms, and its firing exits the
    process with status 1. *)
Lemma absent_timeout_arms_timer :
  o_timeout empty_opts = None ∧
  (step (EvSignal 0 "SIGTERM") (serving None)).2 =
    [Debug (DbgShutdownSignal "SIGTERM"); Debug DbgShuttingDown;
     SetTimeout 0 (JNum 30000); SocketDestroy 0;
     Debug (DbgConnectionsDestroyed 2); Debug (DbgConnectionCounter 2);
     ServerClose 0] ∧
  status (run [EvSignal 0 "SIGTERM"; EvTimeout 0] (serving None)).1 = Exited 1 ∧
  status (run [EvSignal 0 "SIGTERM"; EvTimeout 0] (serving (Some empty_opts))).1
    = Exited 1.
Proof. repeat split; vm_compute; reflexivity. Qed.

(** ** The order of the shutdown sequence *)

(** C1, as the code has it: on the first trigger outside development mode,
    a configured hook is called at once, before any connection is reaped: the
    registry and the sockets are left as they were and the promise is
    awaited.  The sweep runs when that promise resolves, on the registry as
    it is then, and [server.close] is called after it.  Without a hook the
    sweep and [server.close] run inside the trigger. *)
Theorem hook_then_sweep_then_close st i o sig :
  reachable st → status st = Alive → instances st !! i = Some o →
  started o st = true →
  let st' := (step (EvSignal i sig) st).1 in
  let es := (step (EvSignal i sig) st).2 in
  (has_hook o = true →
     es = [Debug (DbgShutdownSignal sig); Debug DbgShuttingDown]
            ++ arm_effects i o ++ [OnShutdownCall i] ∧
     connections st' = connections st ∧ sockets st' = sockets st ∧
     pending st' = [i] ∧ closing st' = [] ∧
     ∀ st2, reachable st2 → status st2 = Alive → i ∈ pending st2 →
       ∃ st3 reaped,
         swept (set_pending (remove_first i (pending st2)) st2) st3 reaped ∧
         step (EvHookResolved i) st2 =
           (set_closing (closing st3 ++ [i]) st3,
            reaped ++ close_effects i st2)) ∧
  (has_hook o = false →
     ∃ st1 reaped,
       swept (arm i o (set_isShuttingDown true st)) st1 reaped ∧
       st' = set_closing (closing st1 ++ [i]) st1 ∧
       es = [Debug (DbgShutdownSignal sig); Debug DbgShuttingDown]
              ++ arm_effects i o ++ reaped
              ++ close_effects i (arm i o (set_isShuttingDown true st))).
Proof.
  intros Hr Hal Hi Hst. apply reachable_Inv in Hr. cbn zeta.
  pose proof Hst as Hst'. apply andb_prop in Hst' as [_ Hs%negb_true_iff].
  destruct (inv_running st Hr Hs) as (Et & Ep & Ec).
  split; intros Hh.
  - rewrite (step_trigger_hook i o sig st Hal Hi Hst Hh). cbn [fst snd].
    assert (Hres : ∀ st2, reachable st2 → status st2 = Alive → i ∈ pending st2 →
      ∃ st3 reaped,
        swept (set_pending (remove_first i (pending st2)) st2) st3 reaped ∧
        step (EvHookResolved i) st2 =
          (set_closing (closing st3 ++ [i]) st3, reaped ++ close_effects i st2)).
    { intros st2 Hr2%reachable_Inv Hal2 Hp2.
      apply step_resolved; [done|done|apply Hr2|].
      destruct (isShuttingDown st2) eqn:E; [done|].
      destruct (inv_running st2 Hr2 E) as (_ & Ep2 & _). rewrite Ep2 in Hp2.
      by apply elem_of_nil in Hp2. }
    split; [done|]. unfold arm.
    destruct (truthy (timeout o)); cbn; rewrite Ep, Ec; done.
  - destruct (step_trigger_cleanup i o sig st Hal Hi Hst Hh (inv_registry st Hr))
      as (st1 & es1 & Hsw & ->).
    by exists st1, es1.
Qed.

Lemma hook_then_sweep_then_close_witness :
  reachable (serving (Some with_hook)) ∧
  (step (EvSignal 0 "SIGTERM") (serving (Some with_hook))).2 =
    [Debug (DbgShutdownSignal "SIGTERM"); Debug DbgShuttingDown]
      ++ arm_effects 0 (objectAssign_defaults with_hook) ++ [OnShutdownCall 0] ∧
  connections (step (EvSignal 0 "SIGTERM") (serving (Some with_hook))).1 =
    connections (serving (Some with_hook)).
Proof.
  assert (Hr : reachable (serving (Some with_hook))).
  { exists [EvGracefulShutdown (Some with_hook); EvConnection 0; EvConnection 0;
            EvRequest 1]. vm_compute. reflexivity. }
  split; [exact Hr|].
  destruct (hook_then_sweep_then_close (serving (Some with_hook)) 0
              (objectAssign_defaults with_hook) "SIGTERM" Hr) as [Hh _];
    [vm_compute; reflexivity..|].
  destruct Hh as (He & Hc & _); [vm_compute; reflexivity|].
  split; [exact He|exact Hc].
Defined.

(** C1 as stated fails: with a hook configured and connection 0 idle, the
    trigger calls the hook and destroys nothing; connection 0 is still
    registered, and is reaped only by the sweep that runs once the promise
    has resolved, after which [server.close] is called. *)
Lemma hook_called_before_sweep :
  idle_at (serving (Some with_hook)) 0 = Some 0 ∧
  (step (EvSignal 0 "SIGTERM") (serving (Some with_hook))).2 =
    [Debug (DbgShutdownSignal "SIGTERM"); Debug DbgShuttingDown;
     SetTimeout 0 (JNum 30000); OnShutdownCall 0] ∧
  idle_at (step (EvSignal 0 "SIGTERM") (serving (Some with_hook))).1 0 = Some 0 ∧
  (run [EvSignal 0 "SIGTERM"; EvHookResolved 0] (serving (Some with_hook))).2 =
    [Debug (DbgShutdownSignal "SIGTERM"); Debug DbgShuttingDown;
     SetTimeout 0 (JNum 30000); OnShutdownCall 0;
     SocketDestroy 0;
     Debug (DbgConnectionsDestroyed 2); Debug (DbgConnectionCounter 2);
     ServerClose 0].
Proof. repeat split; vm_compute; reflexivity. Qed.

(** ** What no turn of the loop undoes *)

Lemma run_dead evs st : status st ≠ Alive → run evs st = (st, []).
Proof.
  induction evs as [|ev evs IH]; intros Hd; [done|].
  rewrite run_cons, step_dead by done. cbn. by rewrite IH.
Qed.

Lemma step_keeps ev st :
  Inv st →
  let st' := (step ev st).1 in
  (isShuttingDown st = true → isShuttingDown st' = true) ∧
  (∀ i o, instances st !! i = Some o → instances st' !! i = Some o) ∧
  (status st' = Alive → status st = Alive) ∧
  (connectionCounter st ≤ connectionCounter st')%N.
Proof.
  intros HI. cbn zeta.
  destruct (decide (status st = Alive)) as [Hal|Hd];
    [|rewrite step_dead by done; cbn; repeat split; try done; lia].
  pose proof (step_rule ev st HI Hal) as Htr.
  destruct Htr; cbn; repeat split; try done; try lia.
  - intros j o Hj. by apply lookup_app_l_Some.
  - unfold arm. by destruct (truthy (timeout o)).
  - unfold arm. by destruct (truthy (timeout o)).
  - unfold arm. by destruct (truthy (timeout o)).
  - destruct H2 as (_ & _ & (Hf & _) & _). rewrite Hf.
    unfold arm. by destruct (truthy (timeout o)).
  - destruct H2 as (_ & _ & (_ & _ & -> & _) & _).
    unfold arm. by destruct (truthy (timeout o)).
  - destruct H2 as (_ & _ & (_ & -> & _) & _).
    unfold arm. destruct (truthy (timeout o)); cbn; lia.
  - unfold JS.incr. destruct (N.ltb_spec (connectionCounter st) MAX_EXACT); lia.
  - destruct H0 as (_ & _ & (Hf & _) & _). by rewrite Hf.
  - destruct H0 as (_ & _ & (_ & _ & -> & _) & _). done.
  - destruct H0 as (_ & _ & (_ & -> & _) & _). cbn. lia.
Qed.

Lemma run_keeps evs : ∀ st,
  Inv st →
  let st' := (run evs st).1 in
  (isShuttingDown st = true → isShuttingDown st' = true) ∧
  (∀ i o, instances st !! i = Some o → instances st' !! i = Some o) ∧
  (status st' = Alive → status st = Alive) ∧
  (connectionCounter st ≤ connectionCounter st')%N.
Proof.
  induction evs as [|ev evs IH]; intros st HI; cbn zeta.
  - cbn. repeat split; try done; lia.
  - rewrite run_cons. cbn [fst].
    destruct (step_keeps ev st HI) as (A1 & A2 & A3 & A4).
    destruct (IH (step ev st).1 (step_Inv ev st HI)) as (B1 & B2 & B3 & B4).
    repeat split; [auto|auto|auto|lia].
Qed.

(** ** A second trigger *)

(** C4: once an instance has been triggered and the process is still running
    when it is triggered again, the shutdown flag is set and stays set, the
    later call changes nothing and only logs the signal, and over the whole
    run the guarded block was entered exactly once, with at most one timer
    armed, at most one call of the hook, at most one sweep and one
    [server.close] for each sweep; the sequence was started by the hook or
    by the sweep. *)
Theorem second_trigger_is_noop evs1 evs2 i sig sig' :
  let st1 := (run evs1 init).1 in
  let st2 := (step (EvSignal i sig) st1).1 in
  let st3 := (run evs2 st2).1 in
  status st1 = Alive → is_Some (instances st1 !! i) → status st3 = Alive →
  isShuttingDown st2 = true ∧ isShuttingDown st3 = true ∧
  step (EvSignal i sig') st3 = (st3, [Debug (DbgShutdownSignal sig')]) ∧
  let es := (run (evs1 ++ EvSignal i sig :: evs2 ++ [EvSignal i sig']) init).2 in
  count is_entered es = 1 ∧ count is_timer es ≤ 1 ∧ count is_hook es ≤ 1 ∧
  count is_sweep es ≤ 1 ∧ count is_close es = count is_sweep es ∧
  1 ≤ count is_hook es + count is_sweep es.
Proof.
  intros st1 st2 st3 Hal1 [o Hi] Hal3.
  assert (HI1 : Inv st1) by apply run_Inv, Inv_init.
  assert (HI2 : Inv st2) by by apply step_Inv.
  assert (HI3 : Inv st3) by by apply run_Inv.
  destruct (run_keeps evs2 st2 HI2) as (K1 & K2 & K3 & _).
  fold st3 in K1, K2, K3. specialize (K3 Hal3).
  destruct (step_keeps (EvSignal i sig) st1 HI1) as (_ & S2 & _). fold st2 in S2.
  assert (Hd : truthy (development o) = false).
  { destruct (truthy (development o)) eqn:E; [|done].
    subst st2. rewrite (step_development i o sig st1 Hal1 Hi E) in K3. done. }
  assert (Hs2 : isShuttingDown st2 = true).
  { subst st2. destruct (isShuttingDown st1) eqn:Hs1.
    - by rewrite (step_again i o sig st1 Hal1 Hi Hd Hs1).
    - assert (Hst : started o st1 = true) by (unfold started; by rewrite Hd, Hs1).
      destruct (has_hook o) eqn:Hh.
      + rewrite (step_trigger_hook i o sig st1 Hal1 Hi Hst Hh). cbn.
        unfold arm. by destruct (truthy (timeout o)).
      + destruct (step_trigger_cleanup i o sig st1 Hal1 Hi Hst Hh (inv_registry _ HI1))
          as (st' & es' & Hsw & ->). cbn.
        destruct Hsw as (_ & _ & (-> & _) & _).
        unfold arm. by destruct (truthy (timeout o)). }
  assert (Hnoop : step (EvSignal i sig') st3 = (st3, [Debug (DbgShutdownSignal sig')])).
  { apply (step_again i o); auto. }
  split; [done|]. split; [auto|]. split; [done|]. cbn zeta.
  pose proof (run_init_TInv (evs1 ++ EvSignal i sig :: evs2 ++ [EvSignal i sig'])) as HT.
  assert (Hfin : (run (evs1 ++ EvSignal i sig :: evs2 ++ [EvSignal i sig']) init).1 = st3).
  { rewrite run_app. cbn [fst]. fold st1. rewrite run_cons. cbn [fst]. fold st2.
    rewrite run_app. cbn [fst]. fold st3. rewrite run_cons. cbn [fst].
    by rewrite Hnoop. }
  rewrite Hfin in HT. destruct HT as [_ T2 T3 T4 T5 T6 _ _].
  destruct (T2 (K1 Hs2)) as [E1 E2]. repeat split; try done. lia.
Qed.

Lemma second_trigger_is_noop_witness :
  status (run [EvGracefulShutdown (Some with_hook); EvConnection 0] init).1 = Alive ∧
  step (EvSignal 0 "SIGINT")
       (run [EvRequest 0]
          (step (EvSignal 0 "SIGTERM")
             (run [EvGracefulShutdown (Some with_hook); EvConnection 0] init).1).1).1
  = ((run [EvRequest 0]
          (step (EvSignal 0 "SIGTERM")
             (run [EvGracefulShutdown (Some with_hook); EvConnection 0] init).1).1).1,
     [Debug (DbgShutdownSignal "SIGINT")]).
Proof.
  assert (H1 : status (run [EvGracefulShutdown (Some with_hook); EvConnection 0] init).1
               = Alive) by (vm_compute; reflexivity).
  split; [exact H1|].
  destruct (second_trigger_is_noop [EvGracefulShutdown (Some with_hook); EvConnection 0]
              [EvRequest 0] 0 "SIGTERM" "SIGINT" H1) as (_ & _ & Hn & _);
    [vm_compute; eauto|vm_compute; reflexivity|exact Hn].
Defined.

(** ** Busy connections *)

Lemma not_destroyed_in es s : count is_destroy es = 0 → SocketDestroy s ∉ es.
Proof. intros Hc Hin. pose proof (count_pos is_destroy es _ Hin eq_refl). lia. Qed.

Lemma swept_destroys_idle b st1 es1 s :
  swept b st1 es1 → SocketDestroy s ∈ es1 →
  ∃ sock, sockets b !! s = Some sock ∧ _isIdle sock = true.
Proof.
  intros (-> & _) (s' & [= <-] & Hin)%list_elem_of_fmap.
  apply list_elem_of_omap in Hin as (k & _ & Hk).
  apply idle_at_Some in Hk as (_ & sock & ? & ?). eauto.
Qed.

Lemma step_destroys_idle ev st s :
  Inv st → status st = Alive → SocketDestroy s ∈ (step ev st).2 →
  ev = EvFinish s ∨ ∃ sock, sockets st !! s = Some sock ∧ _isIdle sock = true.
Proof.
  intros HI Hal Hin. pose proof (step_rule ev st HI Hal) as Htr.
  destruct Htr;
    try (exfalso; revert Hin; apply not_destroyed_in; counts; done).
  - exfalso; revert Hin; apply not_destroyed_in.
    destruct (arm_effects_counts i o) as (_ & _ & _ & _ & _ & _ & A & _). counts. lia.
  - right. rewrite !elem_of_app in Hin. destruct Hin as [Hin|[Hin|[Hin|Hin]]].
    + exfalso; revert Hin; apply not_destroyed_in; counts; done.
    + exfalso; revert Hin; apply not_destroyed_in.
      by destruct (arm_effects_counts i o) as (_ & _ & _ & _ & _ & _ & A & _).
    + destruct (swept_destroys_idle _ _ _ _ H2 Hin) as (sock & Hs & Hidle).
      destruct (arm_fields i o (set_isShuttingDown true st)) as (_ & _ & _ & F & _).
      rewrite F in Hs. eauto.
    + exfalso; revert Hin; apply not_destroyed_in; counts; done.
  - left. apply list_elem_of_singleton in Hin. congruence.
  - right. rewrite elem_of_app in Hin. destruct Hin as [Hin|Hin].
    + destruct (swept_destroys_idle _ _ _ _ H0 Hin) as (sock & Hs & Hidle). eauto.
    + exfalso; revert Hin; apply not_destroyed_in; counts; done.
Qed.

Lemma step_keeps_busy ev st s sock :
  Inv st → sockets st !! s = Some sock → _isIdle sock = false →
  ev ≠ EvFinish s →
  ∃ sock', sockets (step ev st).1 !! s = Some sock' ∧ _isIdle sock' = false.
Proof.
  intros HI Hs Hb Hev.
  destruct (decide (status st = Alive)) as [Hal|Hd];
    [|rewrite step_dead by done; eauto].
  pose proof (step_rule ev st HI Hal) as Htr.
  assert (Hsw : ∀ b st1 es1, swept b st1 es1 → sockets b = sockets st →
            ∃ sock', sockets st1 !! s = Some sock' ∧ _isIdle sock' = false).
  { intros b st1 es1 (_ & _ & _ & [_ Hod] & _) Hb'. rewrite <- Hb' in Hs.
    destruct (Hod _ _ Hs) as (sock' & ? & ? & _). exists sock'. split; [done|congruence]. }
  destruct Htr; cbn; eauto.
  - unfold arm. destruct (truthy (timeout o)); eauto.
  - eapply Hsw; [exact H2|]. unfold arm. by destruct (truthy (timeout o)).
  - exists sock. split; [|done]. by apply lookup_app_l_Some.
  - destruct (decide (s0 = s)) as [->|Hne].
    + exists (set_idle false sock). by rewrite list_lookup_alter_eq, Hs.
    + exists sock. by rewrite list_lookup_alter_ne.
  - assert (s0 ≠ s) by congruence. exists sock. by rewrite !list_lookup_alter_ne.
  - assert (s0 ≠ s) by congruence. exists sock. by rewrite !list_lookup_alter_ne.
Qed.

Lemma run_spares_busy evs : ∀ st s sock,
  Inv st → sockets st !! s = Some sock → _isIdle sock = false →
  EvFinish s ∉ evs →
  (SocketDestroy s ∉ (run evs st).2) ∧
  ∃ sock', sockets (run evs st).1 !! s = Some sock' ∧ _isIdle sock' = false.
Proof.
  induction evs as [|ev evs IH]; intros st s sock HI Hs Hb Hev.
  - cbn. split; [by intros ?%elem_of_nil|eauto].
  - apply not_elem_of_cons in Hev as [Hne Hev]. rewrite run_cons. cbn [fst snd].
    destruct (step_keeps_busy ev st s sock HI Hs Hb) as (sock1 & Hs1 & Hb1); [done|].
    destruct (IH (step ev st).1 s sock1 (step_Inv ev st HI) Hs1 Hb1 Hev) as [Hno Hstill].
    split; [|done]. rewrite elem_of_app. intros [Hin|Hin]; [|done].
    destruct (decide (status st = Alive)) as [Hal|Hd].
    + destruct (step_destroys_idle ev st s HI Hal Hin) as [->|(sock' & Hs' & Hi')];
        [done|congruence].
    + rewrite step_dead in Hin by done. by apply elem_of_nil in Hin.
Qed.

(** C5: while the flag is still RUNNING nothing has been destroyed; a socket
    whose idle flag is false is destroyed by no listener other than the
    ['finish'] listener of a response on that very socket, so it stays
    undestroyed, and busy, through every run in which no response finishes on
    it. *)
Theorem busy_connections_are_spared evs :
  let st := (run evs init).1 in
  (isShuttingDown st = false → count is_destroy (run evs init).2 = 0) ∧
  ∀ s sock, sockets st !! s = Some sock → _isIdle sock = false →
    (∀ ev, ev ≠ EvFinish s → SocketDestroy s ∉ (step ev st).2) ∧
    (∀ evs', EvFinish s ∉ evs' →
       (SocketDestroy s ∉ (run evs' st).2) ∧
       ∃ sock', sockets (run evs' st).1 !! s = Some sock' ∧
                _isIdle sock' = false).
Proof.
  intros st. assert (HI : Inv st) by apply run_Inv, Inv_init.
  split.
  - intros Hs. by destruct (t_running _ _ (run_init_TInv evs) Hs) as (_ & _ & _ & _ & ?).
  - intros s sock Hs Hb. split.
    + intros ev Hev Hin.
      destruct (decide (status st = Alive)) as [Hal|Hd].
      * destruct (step_destroys_idle ev st s HI Hal Hin) as [->|(sock' & Hs' & Hi')];
          [done|congruence].
      * rewrite step_dead in Hin by done. by apply elem_of_nil in Hin.
    + intros evs' Hev. by apply (run_spares_busy evs' st s sock).
Qed.

(** ** The [finally] callback *)

Lemma step_exit_paths ev st code :
  Inv st → status st = Alive → status (step ev st).1 = Exited code →
  ∃ pre, (step ev st).2 = pre ++ exit_effects code st ∧
    (∀ i, count (is_finally i) pre = 0) ∧ count is_exit pre = 0 ∧
    instances (step ev st).1 = instances st ∧
    ((∃ i o sig, ev = EvSignal i sig ∧ instances st !! i = Some o ∧
                 truthy (development o) = true ∧ code = 0%Z) ∨
     (∃ i, ev = EvTimeout i ∧ i ∈ timers st ∧ code = 1%Z) ∨
     (∃ i, ev = EvServerClosed i ∧ i ∈ closing st ∧ code = 0%Z)).
Proof.
  intros HI Hal Hex. pose proof (step_rule ev st HI Hal) as Htr.
  destruct Htr; cbn in Hex; try congruence.
  - injection Hex as <-. eexists. split; [done|]. cbn. repeat split; try done.
    left. eauto 10.
  - unfold arm in Hex. destruct (truthy (timeout o)); cbn in Hex; congruence.
  - destruct H2 as (_ & _ & (_ & _ & _ & _ & _ & _ & Hs) & _). rewrite Hs in Hex.
    unfold arm in Hex. destruct (truthy (timeout o)); cbn in Hex; congruence.
  - injection Hex as <-. exists [Debug (DbgForceful (timeout o))].
    split; [done|]. cbn. repeat split; try done. right. left. eauto.
  - destruct H0 as (_ & _ & (_ & _ & _ & _ & _ & _ & Hs) & _). rewrite Hs in Hex.
    cbn in Hex. congruence.
  - injection Hex as <-. exists []. split; [done|]. cbn. repeat split; try done.
    right. right. eauto.
Qed.

(** C8: a process that [process.exit] has ended was ended in one turn of the
    loop, and that turn was the development fast path (status 0), the firing of the
    forced-exit timer (status 1) or the close callback (status 0).  On each
    of them a [finally] that is a function is called inside [process.exit],
    once; over the whole run it was called exactly once, and nothing runs
    after the exit. *)
Theorem finally_called_once_at_exit evs ev code i o :
  let st := (run evs init).1 in
  let st' := (step ev st).1 in
  status st = Alive → status st' = Exited code →
  instances st !! i = Some o → isFunction (finally o) = true →
  ((∃ j o' sig, ev = EvSignal j sig ∧ instances st !! j = Some o' ∧
                truthy (development o') = true ∧ code = 0%Z) ∨
   (∃ j, ev = EvTimeout j ∧ j ∈ timers st ∧ code = 1%Z) ∨
   (∃ j, ev = EvServerClosed j ∧ j ∈ closing st ∧ code = 0%Z)) ∧
  (∃ pre, (step ev st).2 =
            pre ++ ProcessExit code :: mjoin (imap exit_listener (instances st)) ∧
          count (is_finally i) pre = 0 ∧
          count (is_finally i) (mjoin (imap exit_listener (instances st))) = 1) ∧
  count (is_finally i) (run (evs ++ [ev]) init).2 = 1 ∧
  count is_exit (run (evs ++ [ev]) init).2 = 1 ∧
  ∀ evs', run evs' st' = (st', []).
Proof.
  intros st st' Hal Hex Hi Hf.
  assert (HI : Inv st) by apply run_Inv, Inv_init.
  destruct (step_exit_paths ev st code HI Hal Hex) as (pre & Hes & Hpre & _ & Hin & Hpath).
  split; [exact Hpath|]. split.
  { exists pre. split; [exact Hes|]. split; [apply Hpre|].
    by rewrite count_finally, Hi, Hf. }
  pose proof (run_init_TInv (evs ++ [ev])) as HT.
  assert (Hfin : (run (evs ++ [ev]) init).1 = st').
  { rewrite run_app. cbn [fst]. rewrite run_cons. done. }
  rewrite Hfin in HT. destruct (t_exited _ _ HT code Hex) as [Hx Hfi].
  split.
  { rewrite (Hfi i o); [by rewrite Hf|]. subst st'. by rewrite Hin. }
  split; [exact Hx|].
  intros evs'. apply run_dead. rewrite Hex. done.
Qed.

Lemma finally_called_once_at_exit_witness :
  status (run [EvSignal 0 "SIGTERM"] (serving (Some with_hook))).1 = Alive ∧
  count (is_finally 0)
    (run ([EvGracefulShutdown (Some with_hook); EvConnection 0; EvConnection 0;
           EvRequest 1; EvSignal 0 "SIGTERM"] ++ [EvTimeout 0]) init).2 = 1.
Proof.
  assert (H1 : status (run [EvGracefulShutdown (Some with_hook); EvConnection 0;
                            EvConnection 0; EvRequest 1; EvSignal 0 "SIGTERM"]
                           init).1 = Alive) by (vm_compute; reflexivity).
  split; [vm_compute; reflexivity|].
  destruct (finally_called_once_at_exit
              [EvGracefulShutdown (Some with_hook); EvConnection 0; EvConnection 0;
               EvRequest 1; EvSignal 0 "SIGTERM"]
              (EvTimeout 0) 1 0 (objectAssign_defaults with_hook) H1)
    as (_ & _ & Hc & _); [vm_compute; reflexivity..|exact Hc].
Defined.

(** ** One flag, one registry, one counter *)

Lemma step_trigger_sets_flag i o sig st :
  Inv st → status st = Alive → instances st !! i = Some o →
  truthy (development o) = false →
  isShuttingDown (step (EvSignal i sig) st).1 = true ∧
  status (step (EvSignal i sig) st).1 = Alive.
Proof.
  intros HI Hal Hi Hd. destruct (isShuttingDown st) eqn:Hs.
  - by rewrite (step_again i o sig st Hal Hi Hd Hs).
  - assert (Hst : started o st = true) by (unfold started; by rewrite Hd, Hs).
    destruct (has_hook o) eqn:Hh.
    + rewrite (step_trigger_hook i o sig st Hal Hi Hst Hh). cbn.
      unfold arm. by destruct (truthy (timeout o)).
    + destruct (step_trigger_cleanup i o sig st Hal Hi Hst Hh (inv_registry _ HI))
        as (st' & es' & Hsw & ->). cbn.
      destruct Hsw as (_ & _ & (-> & _ & _ & _ & _ & _ & ->) & _).
      unfold arm. by destruct (truthy (timeout o)).
Qed.

(** C9: in every state the loop can reach, whatever the number of instances,
    the sockets of all servers carry identifiers drawn from the one counter,
    which never decreases: as long as the counter is below [2^53], where a
    JavaScript number stops counting, no two sockets share an identifier and
    every identifier is below the counter.  A connection on any server takes
    the current value of the counter and increments it.  Creating an instance
    leaves the flag, the registry and the counter as they are.  A trigger
    through an instance outside development mode sets the flag, after which a
    trigger through any such instance changes nothing, and a response that
    finishes on a socket of any server has the socket destroyed. *)
Theorem module_state_is_shared st :
  reachable st →
  (∀ s1 s2 sock1 sock2,
     sockets st !! s1 = Some sock1 → sockets st !! s2 = Some sock2 → s1 ≠ s2 →
     (connectionCounter st < MAX_EXACT)%N →
     _connectionId sock1 ≠ _connectionId sock2 ∧
     (_connectionId sock1 < connectionCounter st)%N) ∧
  (∀ ev, (connectionCounter st ≤ connectionCounter (step ev st).1)%N) ∧
  (∀ i o, status st = Alive → instances st !! i = Some o →
     let st' := (step (EvConnection i) st).1 in
     sockets st' !! length (sockets st) =
       Some (Socket true (connectionCounter st) false i) ∧
     connections st' !! connectionCounter st = Some (length (sockets st)) ∧
     connectionCounter st' = JS.incr (connectionCounter st)) ∧
  (∀ opts,
     let st' := (step (EvGracefulShutdown opts) st).1 in
     isShuttingDown st' = isShuttingDown st ∧
     connections st' = connections st ∧
     connectionCounter st' = connectionCounter st) ∧
  (∀ i o sig, status st = Alive → instances st !! i = Some o →
     truthy (development o) = false →
     let st' := (step (EvSignal i sig) st).1 in
     isShuttingDown st' = true ∧
     (∀ j o' sig', instances st' !! j = Some o' →
        truthy (development o') = false →
        step (EvSignal j sig') st' = (st', [Debug (DbgShutdownSignal sig')])) ∧
     (∀ s sock, sockets st' !! s = Some sock →
        (step (EvFinish s) st').2 = [SocketDestroy s])).
Proof.
  intros HI%reachable_Inv. split; [|split; [|split; [|split]]].
  - intros s1 s2 sock1 sock2 H1 H2 Hne Hlt.
    pose proof (inv_counter st HI) as Hc.
    pose proof (inv_ids st HI _ _ H1) as E1. pose proof (inv_ids st HI _ _ H2) as E2.
    apply lookup_lt_Some in H1, H2. unfold MAX_EXACT in *. lia.
  - intros ev. by destruct (step_keeps ev st HI) as (_ & _ & _ & ?).
  - intros i o Hal Hi. cbn zeta. rewrite (step_connection i o st Hal Hi). cbn.
    split; [|split; [|done]].
    + by rewrite lookup_app_r, Nat.sub_diag.
    + by rewrite lookup_insert_eq.
  - intros opts. cbn zeta. destruct (decide (status st = Alive)) as [Hal|Hd].
    + by rewrite step_instantiate.
    + by rewrite step_dead.
  - intros i o sig Hal Hi Hd. cbn zeta.
    destruct (step_trigger_sets_flag i o sig st HI Hal Hi Hd) as [Hs' Hal'].
    split; [done|]. split.
    + intros j o' sig' Hj Hd'. by apply (step_again j o').
    + intros s sock Hs. by rewrite (step_finish_reap s sock).
Qed.

Lemma module_state_is_shared_witness :
  reachable two_servers ∧
  (∀ sock0 sock1,
     sockets two_servers !! 0 = Some sock0 → sockets two_servers !! 1 = Some sock1 →
     _connectionId sock0 ≠ _connectionId sock1) ∧
  isShuttingDown (step (EvSignal 1 "SIGTERM") two_servers).1 = true ∧
  step (EvSignal 0 "SIGINT") (step (EvSignal 1 "SIGTERM") two_servers).1 =
    ((step (EvSignal 1 "SIGTERM") two_servers).1,
     [Debug (DbgShutdownSignal "SIGINT")]).
Proof.
  assert (Hr : reachable two_servers).
  { exists [EvGracefulShutdown None; EvGracefulShutdown (Some with_hook);
            EvConnection 0; EvConnection 1]. vm_compute. reflexivity. }
  split; [exact Hr|].
  destruct (module_state_is_shared two_servers Hr) as (Hids & _ & _ & _ & Hflag).
  split.
  - intros sock0 sock1 H0 H1.
    apply (Hids 0 1 sock0 sock1 H0 H1); [discriminate|vm_compute; reflexivity].
  - destruct (Hflag 1 (objectAssign_defaults with_hook) "SIGTERM")
      as (Hs & Hagain & _); [vm_compute; reflexivity..|].
    split; [exact Hs|].
    apply (Hagain 0 (objectAssign_defaults empty_opts) "SIGINT");
      vm_compute; reflexivity.
Defined.

(** ** A hook whose promise rejects *)

(** What holds from the rejection on: the flag is set, nothing is pending or
    closing, a timer is armed only if one was ([armed]), and the process is
    running, or was ended by that timer, or by a trigger in development
    mode. *)
Lemma stalled_step (armed : Prop) ev st :
  Inv st → isShuttingDown st = true → pending st = [] → closing st = [] →
  (timers st ≠ [] → armed) → status st = Alive →
  let st' := (step ev st).1 in
  let es := (step ev st).2 in
  isShuttingDown st' = true ∧ pending st' = [] ∧ closing st' = [] ∧
  (timers st' ≠ [] → armed) ∧
  count is_sweep es = 0 ∧ count is_close es = 0 ∧
  (status st' = Alive ∨
   (status st' = Exited 1 ∧ armed) ∨
   (status st' = Exited 0 ∧
    ∃ j o, instances st' !! j = Some o ∧ truthy (development o) = true)).
Proof.
  intros HI Hs Hp Hc Ht Hal. cbn zeta.
  pose proof (step_rule ev st HI Hal) as Htr.
  destruct Htr; cbn [fst snd]; try (repeat split; try done; by left).
  - repeat split; try done; try (counts; done). right. right. eauto.
  - apply andb_prop in H0 as [_ Hf%negb_true_iff]. congruence.
  - apply andb_prop in H0 as [_ Hf%negb_true_iff]. congruence.
  - repeat split; try done; try (counts; done).
    + intros _. apply Ht. intros E. rewrite E in H0. by apply elem_of_nil in H0.
    + right. left. split; [done|]. apply Ht. intros E. rewrite E in H0.
      by apply elem_of_nil in H0.
  - rewrite Hp in H. by apply elem_of_nil in H.
  - rewrite Hp in H. by apply elem_of_nil in H.
  - rewrite Hc in H. by apply elem_of_nil in H.
  - rewrite Hp in H. by apply elem_of_nil in H.
Qed.

Lemma stalled_run (armed : Prop) evs : ∀ st,
  Inv st → isShuttingDown st = true → pending st = [] → closing st = [] →
  (timers st ≠ [] → armed) → status st = Alive →
  let st' := (run evs st).1 in
  let es := (run evs st).2 in
  closing st' = [] ∧ pending st' = [] ∧
  count is_sweep es = 0 ∧ count is_close es = 0 ∧
  (status st' = Alive ∨
   (status st' = Exited 1 ∧ armed) ∨
   (status st' = Exited 0 ∧
    ∃ j o, instances st' !! j = Some o ∧ truthy (development o) = true)).
Proof.
  induction evs as [|ev evs IH]; intros st HI Hs Hp Hc Ht Hal; cbn zeta.
  - cbn. repeat split; try done. by left.
  - rewrite run_cons. cbn [fst snd].
    destruct (stalled_step armed ev st HI Hs Hp Hc Ht Hal)
      as (Hs1 & Hp1 & Hc1 & Ht1 & Cs & Cc & Hst).
    destruct (decide (status (step ev st).1 = Alive)) as [Hal1|Hd1].
    + destruct (IH (step ev st).1 (step_Inv ev st HI) Hs1 Hp1 Hc1 Ht1 Hal1)
        as (A1 & A2 & A3 & A4 & A5).
      repeat split; try done; rewrite count_app; lia.
    + rewrite run_dead by done. cbn [fst snd]. rewrite app_nil_r.
      repeat split; done.
Qed.

(** Once nothing is pending or closing, the callbacks that would run the
    sweep or the graceful exit are never called. *)
Lemma never_called i st :
  pending st = [] → closing st = [] →
  step (EvHookResolved i) st = (st, []) ∧ step (EvServerClosed i) st = (st, []).
Proof.
  intros Hp Hc. destruct (decide (status st = Alive)) as [Hal|Hd].
  - unfold step. rewrite Hal. cbn [listener].
    split; unfold mbind at 1, M_bind at 1, gets at 1; rewrite ?Hp, ?Hc;
      (case_bool_decide as Hin; [by apply elem_of_nil in Hin|done]).
  - by rewrite !step_dead.
Qed.

(** C10, counterexample: a hook is configured and [timeout] is 0, so that no
    timer is ever armed.  When the promise rejects and the runtime raises the
    rejection as an uncaught error, the process ends at once although no timer
    was started, and the final hook is called on the way: the rejection is
    not swallowed.  When the runtime goes on, a trigger through a second
    instance, in development mode, still ends the process, with status 0. *)
Lemma unhandled_rejection_ends_process :
  let evs := [EvGracefulShutdown (Some hook_without_timer); EvSignal 0 "SIGTERM"] in
  let evs' := [EvGracefulShutdown (Some hook_without_timer);
               EvGracefulShutdown (Some in_development);
               EvSignal 0 "SIGTERM"; EvHookRejected 0; EvSignal 1 "SIGINT"] in
  status (run evs init).1 = Alive ∧ pending (run evs init).1 = [0] ∧
  status (run (evs ++ [EvUnhandledRejection 0]) init).1 = Unhandled ∧
  count is_timer (run (evs ++ [EvUnhandledRejection 0]) init).2 = 0 ∧
  (step (EvUnhandledRejection 0) (run evs init).1).2 =
    [FinallyCall 0; Debug DbgClosed] ∧
  status (run evs' init).1 = Exited 0 ∧
  count is_timer (run evs' init).2 = 0.
Proof. vm_compute. repeat split. Qed.

(** C10, amended: let the promise of the hook of instance [i] reject
    ([raised] tells what the runtime does with the rejection, for which the
    module has no handler).  In the whole run, whatever came before and
    whatever comes after, the sweep never runs and [server.close] is never
    called; afterwards nothing is pending or closing, so that neither the
    [then] reaction nor a close callback, with its exit, is ever called.
    Where the runtime raises the rejection as an uncaught error, the process
    ends at that turn: the ['exit'] listeners run, the final hook of every
    instance that has one is called once, and no later event does anything.
    Where the runtime goes on, the rejection changes nothing but that the
    reaction is dropped, and from then on the process keeps running, or is
    ended with status 1 by a forced-exit timer that had been armed, or with
    status 0 by a trigger through an instance in development mode. *)
Theorem rejected_hook_stalls evs i evs' (raised : bool) :
  let st := (run evs init).1 in
  status st = Alive → i ∈ pending st →
  let ev := if raised then EvUnhandledRejection i else EvHookRejected i in
  let st2 := (run (evs ++ ev :: evs') init).1 in
  let es := (run (evs ++ ev :: evs') init).2 in
  count is_sweep es = 0 ∧ count is_close es = 0 ∧
  closing st2 = [] ∧ pending st2 = [] ∧
  (∀ j, step (EvHookResolved j) st2 = (st2, []) ∧
        step (EvServerClosed j) st2 = (st2, [])) ∧
  if raised then
    step ev st =
      (set_status Unhandled (set_pending [] st),
       mjoin (imap exit_listener (instances st))) ∧
    (∀ j o, instances st !! j = Some o →
       count (is_finally j) (step ev st).2 = if isFunction (finally o) then 1 else 0) ∧
    st2 = set_status Unhandled (set_pending [] st)
  else
    step ev st = (set_pending [] st, []) ∧
    (status st2 = Alive ∨
     (status st2 = Exited 1 ∧ timers st ≠ []) ∨
     (status st2 = Exited 0 ∧
      ∃ j o, instances st2 !! j = Some o ∧ truthy (development o) = true)).
Proof.
  intros st Hal Hp. cbn zeta.
  assert (HI : Inv st) by apply run_Inv, Inv_init.
  pose proof (remove_first_length _ _ Hp) as Hl.
  pose proof (inv_once st HI) as Ho.
  assert (Hp' : remove_first i (pending st) = []).
  { destruct (remove_first i (pending st)); [done|]. cbn in Hl. lia. }
  assert (Hc : closing st = []).
  { destruct (closing st); [done|]. cbn in Ho. lia. }
  assert (Hs : isShuttingDown st = true).
  { destruct (isShuttingDown st) eqn:E; [done|].
    destruct (inv_running st HI E) as (_ & Ep & _). rewrite Ep in Hp.
    by apply elem_of_nil in Hp. }
  pose proof (run_init_TInv evs) as HT. fold st in HT.
  pose proof (t_sweep _ _ HT) as Hsw. pose proof (t_close _ _ HT) as Hcl.
  assert (count is_sweep (run evs init).2 = 0) as Hz by lia.
  assert (count is_close (run evs init).2 = 0) as Hz' by lia.
  rewrite run_app, run_cons. cbn [fst snd]. fold st.
  destruct raised.
  - rewrite (step_unhandled i st Hal Hp), Hp'. cbn [fst snd].
    rewrite (run_dead evs') by (cbn; done). cbn [fst snd]. rewrite app_nil_r.
    split; [counts; lia|]. split; [counts; lia|].
    split; [done|]. split; [done|].
    split; [intros j; by apply never_called|].
    split; [done|]. split; [|done].
    intros j o Hj. by rewrite count_finally, Hj.
  - rewrite (step_rejected i st Hal Hp), Hp'. cbn [fst snd].
    assert (HI1 : Inv (set_pending [] st)).
    { pose proof (step_Inv (EvHookRejected i) st HI) as H.
      by rewrite (step_rejected i st Hal Hp), Hp' in H. }
    destruct (stalled_run (timers st ≠ []) evs' (set_pending [] st) HI1)
      as (A1 & A2 & A3 & A4 & A5); [done..|].
    split; [counts; lia|]. split; [counts; lia|].
    split; [done|]. split; [done|].
    split; [intros j; by apply never_called|]. done.
Qed.

Lemma rejected_hook_stalls_witness :
  status (run [EvGracefulShutdown (Some hook_without_timer); EvConnection 0;
               EvSignal 0 "SIGTERM"] init).1 = Alive ∧
  count is_sweep
    (run ([EvGracefulShutdown (Some hook_without_timer); EvConnection 0;
           EvSignal 0 "SIGTERM"] ++ [EvUnhandledRejection 0; EvHookResolved 0])
         init).2 = 0.
Proof.
  assert (H1 : status (run [EvGracefulShutdown (Some hook_without_timer);
                            EvConnection 0; EvSignal 0 "SIGTERM"] init).1 = Alive)
    by (vm_compute; reflexivity).
  split; [exact H1|].
  destruct (rejected_hook_stalls
              [EvGracefulShutdown (Some hook_without_timer); EvConnection 0;
               EvSignal 0 "SIGTERM"] 0 [EvHookResolved 0] true H1) as (He & _);
    [vm_compute; left|exact He].
Defined.

(** * Further properties of the code *)

(** ** The signals an instance listens to *)

Lemma js_split_nonempty sep s : js_split sep s ≠ [].
Proof.
  destruct s as [|c s]; cbn [js_split]; [done|].
  destruct (Ascii.eqb c sep); [done|]. by destruct (js_split sep s).
Qed.

Lemma js_split_plain sep s : contains sep s = false → js_split sep s = [s].
Proof.
  induction s as [|c s IH]; cbn [js_split contains]; [done|].
  intros [Hc Hs]%orb_false_elim. rewrite Hc, (IH Hs). done.
Qed.

Lemma js_split_field sep s t :
  contains sep s = false →
  js_split sep (s +:+ String sep t) = s :: js_split sep t.
Proof.
  induction s as [|c s IH].
  - intros _. change (js_split sep (String sep t) = "" :: js_split sep t).
    cbn [js_split]. by rewrite Ascii.eqb_refl.
  - cbn [contains]. intros [Hc Hs]%orb_false_elim.
    change (js_split sep (String c (s +:+ String sep t))
            = String c s :: js_split sep t).
    cbn [js_split]. rewrite Hc, (IH Hs). done.
Qed.

Lemma js_split_join sep names :
  names ≠ [] → Forall (λ name, contains sep name = false) names →
  js_split sep (js_join sep names) = names.
Proof.
  induction names as [|name rest IH]; [done|].
  intros _ [Hn Hrest]%Forall_cons. destruct rest as [|name' rest].
  - cbn. by apply js_split_plain.
  - change (js_join sep (name :: name' :: rest))
      with (name +:+ String sep (js_join sep (name' :: rest))).
    rewrite js_split_field by done. f_equal. by apply IH.
Qed.

Lemma js_split_no_sep sep s field :
  field ∈ js_split sep s → contains sep field = false.
Proof.
  revert field. induction s as [|c s IH]; intros field; cbn [js_split].
  - by intros ->%list_elem_of_singleton.
  - destruct (Ascii.eqb c sep) eqn:Hc.
    + intros [->|Hin]%elem_of_cons; [done|by apply IH].
    + destruct (js_split sep s) as [|f fs] eqn:E.
      * intros ->%list_elem_of_singleton. cbn [contains]. by rewrite Hc.
      * intros [->|Hin]%elem_of_cons.
        -- cbn [contains]. rewrite Hc. cbn [orb]. apply IH. left.
        -- apply IH. by right.
Qed.

Lemma signal_listeners_app sig st o :
  signal_listeners sig (set_instances (instances st ++ [o]) st) =
    signal_listeners sig st
      ++ ((λ _, EvSignal (length (instances st)) sig)
            <$> List.filter (String.eqb sig) (subscribed o)).
Proof.
  unfold signal_listeners. cbn [instances set_instances].
  rewrite imap_app, join_app. cbn. by rewrite app_nil_r, Nat.add_0_r.
Qed.

(** X1: let [opts.signals] be a list of names joined by single spaces, none
    of which contains a space or is one of the two names for which
    [process.on] throws.  Then a call of [GracefulShutdown] adds an instance
    whose listeners are subscribed to the non-empty names, in the order given
    and as often as they occur; empty names, which stand for leading,
    trailing or doubled spaces, are skipped.  When the process receives
    [sig], the listeners it calls are the ones it called before, followed by
    one listener of the new instance for each occurrence of [sig] in the
    list. *)
Theorem subscribed_join opts names st sig :
  Forall (λ name, contains " " name = false) names →
  Forall (λ name, refused name = false) names →
  o_signals opts = Some (js_join " " names) →
  status st = Alive →
  let wanted := List.filter (λ name, negb (String.eqb name "")) names in
  let st' := (step (EvGracefulShutdown (Some opts)) st).1 in
  subscribed (objectAssign_defaults opts) = wanted ∧
  instances st' = instances st ++ [objectAssign_defaults opts] ∧
  signal_listeners sig st' =
    signal_listeners sig st
      ++ ((λ _, EvSignal (length (instances st)) sig)
            <$> List.filter (String.eqb sig) wanted).
Proof.
  intros Hn _ Hs Hal. cbn zeta.
  assert (Hsub : subscribed (objectAssign_defaults opts)
                 = List.filter (λ name, negb (String.eqb name "")) names).
  { unfold subscribed, objectAssign_defaults. cbn [signals]. rewrite Hs.
    cbn [default from_option id].
    assert (Hf : ∀ l, List.filter is_signal_name l
                     = List.filter (λ name, negb (String.eqb name "")) l).
    { intros l. apply List.filter_ext. intros name. unfold is_signal_name. cbn.
      by destruct (String.eqb name ""). }
    rewrite Hf. destruct names as [|name rest]; [done|].
    by rewrite js_split_join. }
  rewrite (step_instantiate (Some opts) st Hal). cbn [fst default from_option id].
  split; [done|]. split; [done|].
  by rewrite signal_listeners_app, Hsub.
Qed.

Lemma subscribed_join_witness :
  subscribed (objectAssign_defaults
                (Opts (Some " SIGINT  SIGTERM ") None None None None))
  = ["SIGINT"; "SIGTERM"]%string.
Proof.
  destruct (subscribed_join (Opts (Some " SIGINT  SIGTERM ") None None None None)
              [""; "SIGINT"; ""; "SIGTERM"; ""]%string init "SIGINT")
    as (H & _).
  - repeat constructor.
  - repeat constructor.
  - reflexivity.
  - reflexivity.
  - exact H.
Defined.

(** X2: whatever the string [signals], every name the instance subscribes to
    is non-empty and contains no space, and is one of the fields of the
    string. *)
Theorem subscribed_names_wellformed o name :
  name ∈ subscribed o →
  name ≠ ""%string ∧ contains " " name = false ∧
  name ∈ js_split " " (signals o).
Proof.
  unfold subscribed. rewrite list_elem_of_In, List.filter_In.
  intros [Hin Hname]. apply list_elem_of_In in Hin.
  split; [|split; [by apply (js_split_no_sep _ (signals o))|done]].
  intros ->. done.
Qed.

Lemma subscribed_names_wellformed_witness :
  "SIGTERM"%string ∈ subscribed (objectAssign_defaults empty_opts) ∧
  contains " " "SIGTERM" = false.
Proof.
  assert (H : "SIGTERM"%string ∈ subscribed (objectAssign_defaults empty_opts)).
  { vm_compute. right. left. }
  split; [exact H|].
  by destruct (subscribed_names_wellformed _ _ H) as (_ & ? & _).
Defined.

(** ** Delivering a signal *)

Lemma step_signal_absent i sig st :
  instances st !! i = None → step (EvSignal i sig) st = (st, []).
Proof.
  intros Hi. unfold step. destruct (status st); [|done..]. cbn [listener].
  unfold mbind at 1, M_bind at 1, gets at 1. rewrite Hi. done.
Qed.

Lemma step_signal_cases i sig st :
  Inv st → status st = Alive →
  let st' := (step (EvSignal i sig) st).1 in
  instances st' = instances st ∧
  match instances st !! i with
  | None => st' = st
  | Some o =>
      if truthy (development o) then status st' = Exited 0
      else status st' = Alive ∧ isShuttingDown st' = true
  end.
Proof.
  intros HI Hal. cbn zeta. destruct (instances st !! i) as [o|] eqn:Hi;
    [|by rewrite step_signal_absent].
  destruct (truthy (development o)) eqn:Hd.
  { by rewrite (step_development i o sig st Hal Hi Hd). }
  destruct (isShuttingDown st) eqn:Hs.
  { by rewrite (step_again i o sig st Hal Hi Hd Hs). }
  assert (Hst : started o st = true) by (unfold started; by rewrite Hd, Hs).
  destruct (arm_fields i o (set_isShuttingDown true st))
    as (F1 & _ & _ & _ & F5 & _ & _ & F8).
  destruct (has_hook o) eqn:Hh.
  - rewrite (step_trigger_hook i o sig st Hal Hi Hst Hh). cbn. by rewrite F1, F5, F8.
  - destruct (step_trigger_cleanup i o sig st Hal Hi Hst Hh (inv_registry _ HI))
      as (st1 & es1 & Hsw & ->). cbn.
    destruct Hsw as (_ & _ & (-> & _ & -> & _ & _ & _ & ->) & _).
    by rewrite F1, F5, F8.
Qed.

Lemma run_signal_listeners sig L : ∀ st,
  Inv st → status st = Alive →
  Forall (λ ev, ∃ dev, listener_of sig st dev ev) L →
  let st' := (run L st).1 in
  instances st' = instances st ∧
  (L ≠ [] →
   (status st' = Exited 0 ∧ Exists (listener_of sig st true) L) ∨
   (status st' = Alive ∧ isShuttingDown st' = true ∧
    Forall (listener_of sig st false) L)).
Proof.
  induction L as [|ev L IH]; intros st HI Hal HL; cbn zeta; [done|].
  apply Forall_cons in HL as [(dev & j & o & -> & Hj & Hd) HL].
  rewrite run_cons. cbn [fst].
  destruct (step_signal_cases j sig st HI Hal) as [Hin Hc]. rewrite Hj, Hd in Hc.
  destruct dev.
  - rewrite run_dead by (rewrite Hc; done). cbn [fst]. split; [done|]. intros _.
    left. split; [done|]. left. by exists j, o.
  - destruct Hc as [Hal1 Hs1].
    destruct (IH (step (EvSignal j sig) st).1) as [Hin' Hres];
      [by apply step_Inv|done| |].
    { eapply Forall_impl; [exact HL|]. intros ev (dev & j' & o' & ? & ? & ?).
      exists dev, j', o'. by rewrite Hin. }
    split; [congruence|]. intros _. destruct L as [|ev' L].
    + right. cbn. split; [done|]. split; [done|]. constructor; [|done]. by exists j, o.
    + destruct Hres as [[Hx Hex]|(Ha & Hs & Hall)]; [done| |].
      * left. split; [done|]. right. eapply Exists_impl; [exact Hex|].
        intros ev (j' & o' & ? & ? & ?). exists j', o'. by rewrite <- Hin.
      * right. split; [done|]. split; [done|]. constructor; [by exists j, o|].
        eapply Forall_impl; [exact Hall|].
        intros ev (j' & o' & ? & ? & ?). exists j', o'. by rewrite <- Hin.
Qed.

Lemma run_signal_noop sig L : ∀ st,
  status st = Alive → isShuttingDown st = true →
  Forall (listener_of sig st false) L →
  (run L st).1 = st ∧ count is_destroy (run L st).2 = 0 ∧
  count is_hook (run L st).2 = 0 ∧ count is_timer (run L st).2 = 0 ∧
  count is_sweep (run L st).2 = 0 ∧ count is_close (run L st).2 = 0 ∧
  count is_exit (run L st).2 = 0.
Proof.
  induction L as [|ev L IH]; intros st Hal Hs HL; [done|].
  apply Forall_cons in HL as [(j & o & -> & Hj & Hd) HL].
  rewrite run_cons, (step_again j o sig st Hal Hj Hd Hs). cbn [fst snd].
  destruct (IH st Hal Hs HL) as (-> & ? & ? & ? & ? & ? & ?).
  repeat split; try done; counts; done.
Qed.

Lemma signal_listeners_spec sig st ev :
  ev ∈ signal_listeners sig st ↔
  ∃ j o, ev = EvSignal j sig ∧ instances st !! j = Some o ∧ sig ∈ subscribed o.
Proof.
  unfold signal_listeners. rewrite list_elem_of_join. split.
  - intros (l & Hev & Hl). apply elem_of_lookup_imap in Hl as (j & o & -> & Hj).
    apply list_elem_of_fmap in Hev as (name & -> & Hname).
    apply list_elem_of_In, List.filter_In in Hname as [Hin ->%String.eqb_eq].
    exists j, o. by rewrite list_elem_of_In.
  - intros (j & o & -> & Hj & Hs).
    exists ((λ _, EvSignal j sig) <$> List.filter (String.eqb sig) (subscribed o)).
    split.
    + apply list_elem_of_fmap. exists sig. split; [done|].
      apply list_elem_of_In, List.filter_In. split; [by apply list_elem_of_In|].
      apply String.eqb_refl.
    + apply elem_of_lookup_imap. by exists j, o.
Qed.

Lemma signal_listeners_Forall sig st :
  Forall (λ ev, ∃ dev, listener_of sig st dev ev) (signal_listeners sig st).
Proof.
  apply Forall_forall. intros ev (j & o & -> & Hj & _)%signal_listeners_spec.
  exists (truthy (development o)), j, o. done.
Qed.



(** X4: delivering the same signal a second time changes nothing: the state
    after two deliveries is the state after one, and the second delivery
    destroys no socket, calls no hook, arms no timer, runs no sweep, closes no
    server and does not exit. *)
Theorem deliver_twice sig st :
  reachable st →
  let st' := (deliver sig st).1 in
  let es := (deliver sig st').2 in
  (deliver sig st').1 = st' ∧
  count is_destroy es = 0 ∧ count is_hook es = 0 ∧ count is_timer es = 0 ∧
  count is_sweep es = 0 ∧ count is_close es = 0 ∧ count is_exit es = 0.
Proof.
  intros HI%reachable_Inv. cbn zeta. unfold deliver.
  destruct (decide (status st = Alive)) as [Hal|Hd].
  { destruct (run_signal_listeners sig _ st HI Hal (signal_listeners_Forall sig st))
      as [Hin Hres].
    assert (HL : signal_listeners sig (run (signal_listeners sig st) st).1
                 = signal_listeners sig st).
    { unfold signal_listeners at 1. by rewrite Hin. }
    rewrite HL. destruct (signal_listeners sig st) as [|ev L] eqn:E; [done|].
    destruct Hres as [[Hx _]|(Ha & Hf & Hall)]; [done| |].
    - rewrite (run_dead (ev :: L)) by (rewrite Hx; done). done.
    - apply (run_signal_noop sig); [done..|].
      eapply Forall_impl; [exact Hall|].
      intros ev' (j' & o' & ? & ? & ?). exists j', o'. by rewrite Hin. }
  rewrite (run_dead (signal_listeners sig st)) by done. cbn [fst].
  rewrite run_dead by done. done.
Qed.

Lemma deliver_twice_witness :
  reachable two_servers ∧
  (deliver "SIGINT" (deliver "SIGINT" two_servers).1).1
    = (deliver "SIGINT" two_servers).1.
Proof.
  assert (Hr : reachable two_servers).
  { exists [EvGracefulShutdown None; EvGracefulShutdown (Some with_hook);
            EvConnection 0; EvConnection 1]. vm_compute. reflexivity. }
  split; [exact Hr|]. by destruct (deliver_twice "SIGINT" two_servers Hr) as [H _].
Defined.

(** ** The registry *)

Lemma marks_refl st : marks st st [].
Proof. intros s sock' Hs Hd. left. eauto. Qed.

Lemma marks_trans st1 st2 st3 es1 es2 :
  marks st1 st2 es1 → marks st2 st3 es2 → marks st1 st3 (es1 ++ es2).
Proof.
  intros H1 H2 s sock3 Hs Hd. destruct (H2 s sock3 Hs Hd) as [(sock2 & Hs2 & Hd2)|Hin].
  - destruct (H1 s sock2 Hs2 Hd2) as [?|Hin]; [by left|].
    right. apply elem_of_app. by left.
  - right. apply elem_of_app. by right.
Qed.

Lemma marks_same_sockets st st' es :
  sockets st' = sockets st → marks st st' es.
Proof. intros E s sock' Hs Hd. left. rewrite E in Hs. eauto. Qed.

Lemma keeps_ret {A} (a : A) : keeps_marks (mret a).
Proof. intros st. apply marks_refl. Qed.

Lemma keeps_bind {A B} (m : M A) (k : A → M B) :
  keeps_marks m → (∀ a, keeps_marks (k a)) → keeps_marks (m ≫= k).
Proof.
  intros Hm Hk st. unfold mbind, M_bind. specialize (Hm st).
  destruct (m st) as [[[a| |] st1] es1]; cbn in *; [|exact Hm..].
  specialize (Hk a st1). destruct (k a st1) as [[r st2] es2]. cbn in *.
  by apply marks_trans with st1.
Qed.

Lemma keeps_gets {A} (f : state → A) : keeps_marks (gets f).
Proof. intros st. apply marks_refl. Qed.

Lemma keeps_emit e : keeps_marks (emit e).
Proof. intros st. by apply marks_same_sockets. Qed.

Lemma keeps_modify f :
  (∀ st, sockets (f st) = sockets st) → keeps_marks (modify f).
Proof. intros Hf st. apply marks_same_sockets. cbn. apply Hf. Qed.

Lemma keeps_set_idle s b : keeps_marks (update_socket s (set_idle b)).
Proof.
  intros st s' sock' Hs Hd. left. cbn in Hs.
  apply lookup_alter_socket in Hs as (sock & E & [->|[_ ->]]); eauto.
Qed.

Lemma keeps_exit {A} code : keeps_marks (@process_exit A code).
Proof. intros st. by apply marks_same_sockets. Qed.

Lemma keeps_unhandled {A} : keeps_marks (@unhandled_rejection A).
Proof. intros st. by apply marks_same_sockets. Qed.

Lemma keeps_destroy o : keeps_marks (destroy o).
Proof.
  intros st. destruct o as [s|]; [|apply marks_refl].
  unfold destroy. msimpl. destruct (sockets st !! s) as [sock|] eqn:E; cbn;
    [|apply marks_refl].
  destruct (_isIdle sock && isShuttingDown st); cbn; [|apply marks_refl].
  intros s' sock' Hs Hd. destruct (decide (s = s')) as [<-|Hne].
  - right. left.
  - left. cbn in Hs. rewrite list_lookup_alter_ne in Hs by done. eauto.
Qed.

Lemma keeps_forEach {A S} (xs : list A) (body : A → S → M S) :
  (∀ x s, keeps_marks (body x s)) → ∀ s, keeps_marks (forEach xs body s).
Proof.
  intros Hb. induction xs as [|x xs IH]; intros s; cbn [forEach].
  - apply keeps_ret.
  - apply keeps_bind; [apply Hb|apply IH].
Qed.

Ltac keeps :=
  repeat first
    [ apply keeps_ret | apply keeps_gets | apply keeps_emit | apply keeps_exit
    | apply keeps_unhandled
    | apply keeps_destroy | apply keeps_set_idle
    | apply keeps_modify; intros ?; reflexivity
    | apply keeps_bind; [|intros ?]
    | apply keeps_forEach; intros ? ? ].

Lemma keeps_cleanupHttp i : keeps_marks (cleanupHttp i).
Proof. unfold cleanupHttp, cleanup_each, debug. keeps. Qed.

Lemma keeps_shutdown i o sig : keeps_marks (shutdown i o sig).
Proof.
  unfold shutdown, debug, skip. apply keeps_bind; [keeps|intros _].
  destruct (truthy (development o)); [keeps|].
  apply keeps_bind; [keeps|intros shutting]. destruct (negb shutting); [|keeps].
  do 2 (apply keeps_bind; [keeps|intros _]).
  apply keeps_bind; [destruct (truthy (timeout o)); keeps|intros _].
  destruct (_ && _); [keeps|apply keeps_cleanupHttp].
Qed.

Lemma keeps_listener ev : keeps_marks (listener ev).
Proof.
  destruct ev as [opts|i sig|i|s|s|s|i|i|i|i|i]; cbn [listener].
  - unfold GracefulShutdown. keeps.
  - apply keeps_bind; [keeps|intros [o|]]; [apply keeps_shutdown|apply keeps_ret].
  - apply keeps_bind; [keeps|intros [o|]]; [|apply keeps_ret].
    unfold on_connection. apply keeps_bind; [keeps|intros id].
    apply keeps_bind; [keeps|intros _]. apply keeps_bind; [keeps|intros s].
    apply keeps_bind; [|intros _; keeps].
    intros st s' sock' Hs Hd. left. cbn in Hs.
    apply lookup_app_Some in Hs as [Hs|[_ Hs]]; [eauto|].
    destruct (s' - length (sockets st)); cbn in Hs; [|done].
    injection Hs as <-. done.
  - apply keeps_bind; [keeps|intros [o|]]; [|apply keeps_ret].
    unfold on_request. keeps.
  - apply keeps_bind; [keeps|intros [o|]]; [|apply keeps_ret].
    unfold on_finish. keeps.
  - apply keeps_bind; [keeps|intros [o|]]; [|apply keeps_ret].
    unfold on_close, delete_connection. keeps.
  - apply keeps_bind; [keeps|intros armed]. apply keeps_bind; [keeps|intros [o|]];
      [|apply keeps_ret].
    destruct armed; [|apply keeps_ret]. unfold forced_timeout, debug. keeps.
  - apply keeps_bind; [keeps|intros []]; [|apply keeps_ret].
    apply keeps_bind; [keeps|intros _; apply keeps_cleanupHttp].
  - apply keeps_bind; [keeps|intros []]; [keeps|apply keeps_ret].
  - apply keeps_bind; [keeps|intros []]; [keeps|apply keeps_ret].
  - apply keeps_bind; [keeps|intros []]; [keeps|apply keeps_ret].
Qed.

Lemma step_marks ev st : marks st (step ev st).1 (step ev st).2.
Proof.
  unfold step. destruct (status st); [|apply marks_refl..].
  pose proof (keeps_listener ev st) as H.
  destruct (listener ev st) as [[[] st'] es]; cbn in *; done.
Qed.

Lemma step_close s sock st :
  status st = Alive → sockets st !! s = Some sock →
  step (EvClose s) st =
    (set_connections (delete (_connectionId sock) (connections st)) st, []).
Proof.
  intros Hal Hs. unfold step. rewrite Hal. cbn [listener]. msimpl. by rewrite Hs.
Qed.

Lemma step_request s sock st :
  status st = Alive → sockets st !! s = Some sock →
  step (EvRequest s) st =
    (set_sockets (alter (set_idle false) s (sockets st)) st, []).
Proof.
  intros Hal Hs. unfold step. rewrite Hal. cbn [listener]. msimpl. by rewrite Hs.
Qed.

Lemma swept_entry b st1 es1 k s :
  swept b st1 es1 → connections st1 !! k = Some s →
  connections b !! k = Some s ∧ idle_at b k = None.
Proof.
  intros (_ & _ & _ & _ & Hgone & Hkept & _) Hk.
  destruct (idle_at b k) as [s'|] eqn:E.
  - rewrite Hgone in Hk by eauto. done.
  - by rewrite Hkept in Hk.
Qed.

(** An entry of the registry after a turn was there before, or is the entry
    of the socket the turn has just accepted. *)
Lemma step_new_entry ev st k s :
  Inv st → status st = Alive →
  connections (step ev st).1 !! k = Some s →
  connections st !! k = Some s ∨ sockets st !! s = None.
Proof.
  intros HI Hal. pose proof (step_rule ev st HI Hal) as Htr.
  destruct Htr; cbn; eauto.
  - unfold arm. destruct (truthy (timeout o)); eauto.
  - intros Hk. left. apply (swept_entry _ _ _ _ _ H2) in Hk as [Hk _].
    unfold arm in Hk. by destruct (truthy (timeout o)).
  - intros Hk. destruct (decide (connectionCounter st = k)) as [<-|Hne].
    + rewrite lookup_insert_eq in Hk. injection Hk as <-. right.
      by apply lookup_ge_None.
    + rewrite lookup_insert_ne in Hk by done. by left.
  - intros Hk. left. by apply lookup_delete_Some in Hk as [_ ?].
  - intros Hk. left. by apply lookup_delete_Some in Hk as [_ ?].
  - intros Hk. left. by apply (swept_entry _ _ _ _ _ H0) in Hk as [Hk _].
Qed.

(** A socket on which a turn called [destroy()] has no entry after it. *)
Lemma step_destroy_unregisters ev st s k :
  Inv st → status st = Alive → SocketDestroy s ∈ (step ev st).2 →
  connections (step ev st).1 !! k ≠ Some s.
Proof.
  intros HI Hal Hin. pose proof (step_rule ev st HI Hal) as Htr.
  assert (Hsw : ∀ b st1 es1, swept b st1 es1 → registry_wf b →
            SocketDestroy s ∈ es1 → connections st1 !! k ≠ Some s).
  { intros b st1 es1 Hsw Hwf Hes Hk.
    destruct (swept_entry _ _ _ _ _ Hsw Hk) as [Hb Hnone].
    destruct Hsw as (-> & _).
    apply list_elem_of_fmap in Hes as (s' & [= <-] & Hs').
    apply list_elem_of_omap in Hs' as (k0 & _ & Hk0).
    pose proof (idle_at_registered _ _ _ Hk0) as Hb0.
    destruct (Hwf _ _ Hb) as (sock & E & Hid).
    destruct (Hwf _ _ Hb0) as (sock0 & E0 & Hid0).
    assert (k0 = k) as -> by congruence. congruence. }
  destruct Htr;
    try (exfalso; revert Hin; apply not_destroyed_in; counts; done).
  - exfalso; revert Hin; apply not_destroyed_in.
    destruct (arm_effects_counts i o) as (_ & _ & _ & _ & _ & _ & A & _). counts. lia.
  - rewrite !elem_of_app in Hin. cbn [fst]. destruct Hin as [Hin|[Hin|[Hin|Hin]]].
    + exfalso; revert Hin; apply not_destroyed_in; counts; done.
    + exfalso; revert Hin; apply not_destroyed_in.
      by destruct (arm_effects_counts i o) as (_ & _ & _ & _ & _ & _ & A & _).
    + refine (Hsw _ _ _ H2 _ Hin). unfold arm.
      destruct (truthy (timeout o)); apply HI.
    + exfalso; revert Hin; apply not_destroyed_in; counts; done.
  - apply list_elem_of_singleton in Hin. injection Hin as ->. cbn.
    intros [Hne Hk]%lookup_delete_Some.
    destruct (inv_registry st HI _ _ Hk) as (sock' & E & Hid). congruence.
  - rewrite elem_of_app in Hin. cbn [fst]. destruct Hin as [Hin|Hin].
    + refine (Hsw _ _ _ H0 _ Hin). apply HI.
    + exfalso; revert Hin; apply not_destroyed_in; counts; done.
Qed.

Lemma step_registered_intact ev st :
  Inv st → registered_intact st → registered_intact (step ev st).1.
Proof.
  intros HI Hreg. destruct (decide (status st = Alive)) as [Hal|Hd];
    [|by rewrite step_dead].
  intros k s sock' Hk Hs. destruct (destroyed sock') eqn:Hd; [exfalso|done].
  destruct (step_marks ev st s sock' Hs Hd) as [(sock & E & Hdd)|Hin].
  - destruct (step_new_entry ev st k s HI Hal Hk) as [Hk0|Hnone]; [|congruence].
    by rewrite (Hreg k s sock Hk0 E) in Hdd.
  - by apply (step_destroy_unregisters ev st s k HI Hal Hin).
Qed.

Lemma run_registered_intact evs : ∀ st,
  Inv st → registered_intact st → registered_intact (run evs st).1.
Proof.
  induction evs as [|ev evs IH]; intros st HI Hreg; [done|].
  rewrite run_cons. cbn [fst].
  apply IH; [by apply step_Inv|by apply step_registered_intact].
Qed.



(** X6: in every state the loop can reach, an entry of the registry refers
    to a socket that carries the entry's key as its identifier and that has
    not been destroyed; while the counter is below [2^53] the key is below
    the counter. *)
Theorem registry_entries_are_live st k s :
  reachable st → connections st !! k = Some s →
  ∃ sock, sockets st !! s = Some sock ∧ _connectionId sock = k ∧
          destroyed sock = false ∧
          ((connectionCounter st < MAX_EXACT)%N → (k < connectionCounter st)%N).
Proof.
  intros [evs <-] Hk.
  assert (HI : Inv (run evs init).1) by apply run_Inv, Inv_init.
  destruct (inv_registry _ HI _ _ Hk) as (sock & Hs & Hid).
  exists sock. split; [done|]. split; [done|]. split.
  - apply (run_registered_intact evs init Inv_init) with k s; [|done..].
    intros k' s' sock' Hk'. cbn in Hk'. by rewrite lookup_empty in Hk'.
  - intros Hlt. pose proof (inv_counter _ HI) as Hc.
    pose proof (inv_ids _ HI _ _ Hs) as Hi. apply lookup_lt_Some in Hs.
    unfold MAX_EXACT in *. lia.
Qed.

Lemma registry_entries_are_live_witness :
  reachable (step (EvSignal 0 "SIGTERM") (serving None)).1 ∧
  ∃ sock, sockets (step (EvSignal 0 "SIGTERM") (serving None)).1 !! 1 = Some sock ∧
          _connectionId sock = 1%N ∧ destroyed sock = false.
Proof.
  assert (Hr : reachable (step (EvSignal 0 "SIGTERM") (serving None)).1).
  { exists [EvGracefulShutdown None; EvConnection 0; EvConnection 0; EvRequest 1;
            EvSignal 0 "SIGTERM"]. vm_compute. reflexivity. }
  split; [exact Hr|].
  destruct (registry_entries_are_live _ 1%N 1 Hr) as (sock & ? & ? & ? & _);
    [vm_compute; reflexivity|].
  exists sock. done.
Defined.

(** X7: when a socket closes, its entry is deleted whatever the shutdown
    state: nothing is logged, no entry refers to the socket any more, the
    sockets are untouched; while the counter is below [2^53] the entries of
    all other sockets stay, and a second ['close'] changes nothing. *)
Theorem close_unregisters st s sock :
  reachable st → status st = Alive → sockets st !! s = Some sock →
  let st' := (step (EvClose s) st).1 in
  (step (EvClose s) st).2 = [] ∧
  (∀ k, connections st' !! k ≠ Some s) ∧
  sockets st' = sockets st ∧ isShuttingDown st' = isShuttingDown st ∧
  ((connectionCounter st < MAX_EXACT)%N →
   ∀ k s', s' ≠ s → connections st !! k = Some s' →
           connections st' !! k = Some s') ∧
  step (EvClose s) st' = (st', []).
Proof.
  intros HI%reachable_Inv Hal Hs. cbn zeta.
  rewrite (step_close s sock st Hal Hs). cbn [fst snd].
  split; [done|]. split; [|split; [done|split; [done|split]]].
  - intros k Hk. cbn in Hk. apply lookup_delete_Some in Hk as [Hne Hk].
    destruct (inv_registry st HI _ _ Hk) as (sock' & E & Hid). congruence.
  - intros Hlt k s' Hne Hk. cbn. rewrite lookup_delete_ne; [done|].
    intros <-. destruct (inv_registry st HI _ _ Hk) as (sock' & E & Hid).
    pose proof (inv_counter _ HI) as Hc.
    pose proof (inv_ids _ HI _ _ Hs) as Hi. pose proof (inv_ids _ HI _ _ E) as Hi'.
    apply lookup_lt_Some in Hs, E. unfold MAX_EXACT in *. lia.
  - rewrite (step_close s sock); [|done..]. cbn. f_equal. unfold set_connections. cbn.
    f_equal. apply map_eq. intros k.
    destruct (decide (_connectionId sock = k)) as [<-|Hne].
    + by rewrite !lookup_delete_eq.
    + by rewrite !lookup_delete_ne.
Qed.

Lemma close_unregisters_witness :
  reachable (serving None) ∧
  ∀ k, connections (step (EvClose 1) (serving None)).1 !! k ≠ Some 1.
Proof.
  assert (Hr : reachable (serving None)).
  { exists [EvGracefulShutdown None; EvConnection 0; EvConnection 0; EvRequest 1].
    vm_compute. reflexivity. }
  split; [exact Hr|].
  destruct (close_unregisters (serving None) 1 (Socket false 1 false 0) Hr)
    as (_ & H & _); [vm_compute; reflexivity..|exact H].
Defined.

(** X8: while the counter is below [2^53], a connection that is accepted and
    then closes leaves the registry as it was, with the counter one higher:
    the key it was given was free. *)
Theorem accept_then_close st i o :
  reachable st → status st = Alive → instances st !! i = Some o →
  (connectionCounter st < MAX_EXACT)%N →
  let st' := (run [EvConnection i; EvClose (length (sockets st))] st).1 in
  connections st !! connectionCounter st = None ∧
  connections st' = connections st ∧
  connectionCounter st' = (connectionCounter st + 1)%N ∧
  (run [EvConnection i; EvClose (length (sockets st))] st).2 = [].
Proof.
  intros HI%reachable_Inv Hal Hi Hlt.
  assert (Hfree : connections st !! connectionCounter st = None).
  { destruct (connections st !! connectionCounter st) as [s|] eqn:E; [|done].
    destruct (inv_registry st HI _ _ E) as (sock & Hs & Hid).
    pose proof (inv_counter _ HI) as Hc. pose proof (inv_ids _ HI _ _ Hs) as Hi'.
    apply lookup_lt_Some in Hs. unfold MAX_EXACT in *. lia. }
  cbn zeta. rewrite run_cons, (step_connection i o st Hal Hi). cbn [fst snd].
  rewrite run_cons.
  rewrite (step_close (length (sockets st)) (Socket true (connectionCounter st) false i));
    [|done|cbn; by rewrite lookup_app_r, Nat.sub_diag].
  cbn. split; [done|]. split; [by rewrite delete_insert_eq, delete_id|]. split; [|done].
  unfold JS.incr. apply N.ltb_lt in Hlt. by rewrite Hlt.
Qed.

Lemma accept_then_close_witness :
  reachable (serving None) ∧
  connections
    (run [EvConnection 0; EvClose (length (sockets (serving None)))] (serving None)).1
  = connections (serving None).
Proof.
  assert (Hr : reachable (serving None)).
  { exists [EvGracefulShutdown None; EvConnection 0; EvConnection 0; EvRequest 1].
    vm_compute. reflexivity. }
  split; [exact Hr|].
  destruct (accept_then_close (serving None) 0 (objectAssign_defaults empty_opts) Hr)
    as (_ & H & _); [vm_compute; reflexivity..|exact H].
Defined.

(** ** Requests *)

Lemma alter_undo (f g : socket → socket) (l : list socket) (s : nat) sock :
  l !! s = Some sock → f (g sock) = sock → alter f s (alter g s l) = l.
Proof.
  intros Hs Hfg. apply list_eq. intros s'. destruct (decide (s = s')) as [<-|Hne].
  - by rewrite !list_lookup_alter_eq, Hs; cbn; rewrite Hfg.
  - by rewrite !list_lookup_alter_ne.
Qed.

Lemma set_sockets_same l st : set_sockets (sockets st) (set_sockets l st) = st.
Proof. by destruct st. Qed.

(** X9: outside shutdown, a request marks its socket busy and leaves the
    registry alone, and the arrival of a request on an idle socket followed by
    the end of its response puts the process back in the state it was in:
    nothing is logged and nothing is destroyed. *)
Theorem request_then_finish st s sock :
  status st = Alive → isShuttingDown st = false → sockets st !! s = Some sock →
  sockets (step (EvRequest s) st).1 !! s = Some (set_idle false sock) ∧
  connections (step (EvRequest s) st).1 = connections st ∧
  (_isIdle sock = true → run [EvRequest s; EvFinish s] st = (st, [])).
Proof.
  intros Hal Hs Hsock. rewrite (step_request s sock st Hal Hsock). cbn [fst].
  split; [by cbn; rewrite list_lookup_alter_eq, Hsock|]. split; [done|].
  intros Hidle. rewrite run_cons, (step_request s sock st Hal Hsock). cbn [fst snd].
  rewrite run_cons.
  rewrite (step_finish_keep s (set_idle false sock));
    [|done|by cbn; rewrite list_lookup_alter_eq, Hsock|done].
  cbn. rewrite (alter_undo _ _ _ _ sock Hsock); [by rewrite set_sockets_same|].
  destruct sock; cbn in *; by subst.
Qed.

Lemma request_then_finish_witness :
  run [EvRequest 0; EvFinish 0] (serving None) = (serving None, []).
Proof.
  by destruct (request_then_finish (serving None) 0 (Socket true 0 false 0)
                 eq_refl eq_refl eq_refl) as (_ & _ & H); [apply H].
Defined.

(** X10: the idle flag is a boolean, not a count of requests in flight.
    During shutdown, when two requests have arrived on one socket and the
    first response finishes, the socket is destroyed although the second
    request is still being served; the end of the second response calls
    [destroy()] on the socket once more. *)
Theorem pipelined_request_is_cut st s sock :
  status st = Alive → isShuttingDown st = true → sockets st !! s = Some sock →
  (run [EvRequest s; EvRequest s; EvFinish s] st).2 = [SocketDestroy s] ∧
  (∃ sock', sockets (run [EvRequest s; EvRequest s; EvFinish s] st).1 !! s
            = Some sock' ∧ destroyed sock' = true) ∧
  (run [EvRequest s; EvRequest s; EvFinish s; EvFinish s] st).2
    = [SocketDestroy s; SocketDestroy s].
Proof.
  intros Hal Hs Hsock.
  assert (H1 : step (EvRequest s) st
               = (set_sockets (alter (set_idle false) s (sockets st)) st, []))
    by by apply (step_request s sock).
  set (st1 := set_sockets (alter (set_idle false) s (sockets st)) st) in *.
  assert (Hs1 : sockets st1 !! s = Some (set_idle false sock))
    by by cbn; rewrite list_lookup_alter_eq, Hsock.
  assert (H2 : step (EvRequest s) st1
               = (set_sockets (alter (set_idle false) s (sockets st1)) st1, []))
    by by apply (step_request s (set_idle false sock)).
  set (st2 := set_sockets (alter (set_idle false) s (sockets st1)) st1) in *.
  assert (Hs2 : sockets st2 !! s = Some (set_idle false (set_idle false sock)))
    by by cbn; rewrite !list_lookup_alter_eq, Hsock.
  pose proof (step_finish_reap s _ st2 Hal Hs2 Hs) as H3.
  set (st3 := (step (EvFinish s) st2).1) in *.
  assert (Hs3 : ∃ sock3, sockets st3 !! s = Some sock3 ∧ destroyed sock3 = true).
  { subst st3. rewrite H3. cbn. rewrite !list_lookup_alter_eq, Hsock. cbn. eauto. }
  destruct Hs3 as (sock3 & Hs3 & Hd3).
  assert (Hal3 : status st3 = Alive) by (subst st3; by rewrite H3).
  assert (Hf3 : isShuttingDown st3 = true) by (subst st3; by rewrite H3).
  pose proof (step_finish_reap s sock3 st3 Hal3 Hs3 Hf3) as H4.
  rewrite !run_cons, H1. cbn [fst snd]. rewrite H2. cbn [fst snd]. fold st3.
  rewrite H3, H4. cbn [fst snd run]. rewrite !app_nil_r. cbn.
  split; [done|]. split; [|done]. eauto.
Qed.

Lemma pipelined_request_is_cut_witness :
  (run [EvRequest 0; EvRequest 0; EvFinish 0]
       (step (EvSignal 0 "SIGTERM") (serving (Some with_hook))).1).2
  = [SocketDestroy 0].
Proof.
  by destruct (pipelined_request_is_cut
                 (step (EvSignal 0 "SIGTERM") (serving (Some with_hook))).1 0
                 (Socket true 0 false 0) eq_refl eq_refl eq_refl) as [H _].
Defined.

(** ** The sweep, once more *)



(** Once shutdown has begun and no promise is pending, none ever is. *)
Lemma step_pending_empty ev st :
  Inv st → isShuttingDown st = true → pending st = [] →
  pending (step ev st).1 = [].
Proof.
  intros HI Hs Hp.
  destruct (decide (status st = Alive)) as [Hal|Hd]; [|by rewrite step_dead].
  pose proof (step_rule ev st HI Hal) as Htr.
  destruct Htr; cbn [fst pending set_pending set_status set_instances set_closing
                     set_connections set_sockets set_connectionCounter set_timers];
    try done;
    try (apply andb_prop in H0 as [_ Hf%negb_true_iff]; congruence);
    try (rewrite Hp in H; by apply elem_of_nil in H).
Qed.

Lemma run_pending_empty evs : ∀ st,
  Inv st → isShuttingDown st = true → pending st = [] →
  pending (run evs st).1 = [].
Proof.
  induction evs as [|ev evs IH]; intros st HI Hs Hp; [done|].
  rewrite run_cons. cbn [fst].
  apply IH; [by apply step_Inv|by apply (step_keeps ev st HI)|
             by apply step_pending_empty].
Qed.

(** During shutdown, an idle entry stays as it is through a turn that is not
    an event of its socket, unless the turn is the sweep, which leaves no
    promise pending. *)
Lemma step_keeps_idle_entry ev st k s :
  Inv st → isShuttingDown st = true → idle_at st k = Some s →
  (connectionCounter (step ev st).1 < MAX_EXACT)%N →
  ev ≠ EvRequest s → ev ≠ EvFinish s → ev ≠ EvClose s →
  idle_at (step ev st).1 k = Some s ∨ pending (step ev st).1 = [].
Proof.
  intros HI Hs Hidle Hcc Hr Hf Hc.
  destruct (decide (status st = Alive)) as [Hal|Hd];
    [|left; by rewrite step_dead].
  pose proof (step_rule ev st HI Hal) as Htr.
  apply idle_at_Some in Hidle as (Hk & sock & Hsock & Hi).
  pose proof (inv_counter st HI) as Hcnt.
  pose proof (inv_ids st HI) as Hids.
  destruct (inv_registry st HI _ _ Hk) as (sock0 & Hsock0 & Hid).
  assert (sock0 = sock) as -> by congruence.
  pose proof (Hids _ _ Hsock) as Hks. rewrite Hid in Hks.
  pose proof (lookup_lt_Some _ _ _ Hsock) as Hlt.
  assert (Hsame : ∀ st', connections st' = connections st →
            sockets st' = sockets st → idle_at st' k = Some s).
  { intros st' E1 E2. apply idle_at_Some. rewrite E1, E2. eauto. }
  destruct Htr; cbn [fst] in Hcc |- *; try (left; by apply Hsame).
  - apply andb_prop in H0 as [_ Hn%negb_true_iff]. congruence.
  - apply andb_prop in H0 as [_ Hn%negb_true_iff]. congruence.
  - (* connection *)
    left. apply idle_at_Some. cbn in Hcc |- *.
    assert (connectionCounter st ≠ k).
    { unfold JS.incr in Hcc.
      destruct (N.ltb_spec (connectionCounter st) MAX_EXACT); lia. }
    rewrite lookup_insert_ne by done. split; [done|].
    exists sock. split; [by apply lookup_app_l_Some|done].
  - (* request *)
    assert (s0 ≠ s) by congruence.
    left. apply idle_at_Some. cbn. split; [done|].
    exists sock. by rewrite list_lookup_alter_ne.
  - (* finish, reaped *)
    assert (s0 ≠ s) by congruence.
    pose proof (Hids _ _ H) as Hid0. pose proof (lookup_lt_Some _ _ _ H) as Hlt0.
    left. apply idle_at_Some. cbn in Hcc |- *.
    rewrite lookup_delete_ne by lia. split; [done|].
    exists sock. by rewrite !list_lookup_alter_ne.
  - congruence.
  - (* close *)
    assert (s0 ≠ s) by congruence.
    pose proof (Hids _ _ H) as Hid0. pose proof (lookup_lt_Some _ _ _ H) as Hlt0.
    left. apply idle_at_Some. cbn in Hcc |- *.
    rewrite lookup_delete_ne by lia. split; [done|]. eauto.
  - (* the sweep *)
    right. destruct H0 as (_ & _ & (_ & _ & _ & _ & Hp & _) & _). cbn in Hp |- *.
    rewrite Hp. pose proof (remove_first_length _ _ H) as Hl.
    pose proof (inv_once st HI) as Ho.
    destruct (remove_first i (pending st)); [done|]. cbn in Hl. lia.
Qed.

Lemma run_keeps_idle_entry evs : ∀ st k s i,
  Inv st → isShuttingDown st = true → idle_at st k = Some s →
  EvRequest s ∉ evs → EvFinish s ∉ evs → EvClose s ∉ evs →
  i ∈ pending (run evs st).1 →
  (connectionCounter (run evs st).1 < MAX_EXACT)%N →
  idle_at (run evs st).1 k = Some s.
Proof.
  induction evs as [|ev evs IH]; intros st k s i HI Hs Hidle Hr Hf Hc Hp Hcc;
    [done|].
  rewrite run_cons in Hp, Hcc |- *. cbn [fst] in Hp, Hcc |- *.
  apply not_elem_of_cons in Hr as [Hr Hr'], Hf as [Hf Hf'], Hc as [Hc Hc'].
  pose proof (step_Inv ev st HI) as HI1.
  destruct (step_keeps ev st HI) as (Hs1 & _).
  destruct (run_keeps evs _ HI1) as (_ & _ & _ & Hle).
  assert (Hcc1 : (connectionCounter (step ev st).1 < MAX_EXACT)%N)
    by (cbn zeta in Hle; lia).
  destruct (step_keeps_idle_entry ev st k s HI Hs Hidle Hcc1) as [Hidle1|Hp1];
    [congruence..| |].
  - apply (IH _ k s i); auto.
  - rewrite (run_pending_empty evs _ HI1 (Hs1 Hs) Hp1) in Hp.
    by apply elem_of_nil in Hp.
Qed.

(** X14: a connection accepted while the promise of the hook is pending is
    registered like any other, as idle.  Whatever happens next on other
    connections, if no request arrives on it and it does not close before
    the promise resolves, it is still registered and idle then, and the sweep
    that runs at that moment destroys it and removes its entry (the
    identifier counter being below [2^53]). *)
Theorem late_connection_is_swept st i j o evs :
  reachable st → status st = Alive → i ∈ pending st →
  instances st !! j = Some o →
  let s := length (sockets st) in
  let st1 := (step (EvConnection j) st).1 in
  let st2 := (run evs st1).1 in
  idle_at st1 (connectionCounter st) = Some s ∧
  (EvRequest s ∉ evs → EvFinish s ∉ evs → EvClose s ∉ evs →
   status st2 = Alive → i ∈ pending st2 →
   (connectionCounter st2 < MAX_EXACT)%N →
   idle_at st2 (connectionCounter st) = Some s ∧
   SocketDestroy s ∈ (step (EvHookResolved i) st2).2 ∧
   ∀ k, connections (step (EvHookResolved i) st2).1 !! k ≠ Some s).
Proof.
  intros HI%reachable_Inv Hal Hp Hj. cbn zeta.
  assert (Hs : isShuttingDown st = true).
  { destruct (isShuttingDown st) eqn:E; [done|].
    destruct (inv_running st HI E) as (_ & Ep & _). rewrite Ep in Hp.
    by apply elem_of_nil in Hp. }
  pose proof (step_Inv (EvConnection j) st HI) as HI1.
  destruct (step_keeps (EvConnection j) st HI) as (Hs1 & _).
  specialize (Hs1 Hs). revert HI1 Hs1.
  rewrite (step_connection j o st Hal Hj). cbn [fst snd].
  set (st1 := set_connections _ _). intros HI1 Hs1.
  assert (Hidle : idle_at st1 (connectionCounter st) = Some (length (sockets st))).
  { apply idle_at_Some. cbn. rewrite lookup_insert_eq. split; [done|].
    eexists. rewrite lookup_app_r, Nat.sub_diag by done. done. }
  split; [done|]. intros Hr Hf Hc Hal2 Hp2 Hcc.
  pose proof (run_keeps_idle_entry evs st1 _ _ i HI1 Hs1 Hidle Hr Hf Hc Hp2 Hcc)
    as Hidle2.
  split; [done|].
  pose proof (run_Inv evs st1 HI1) as HI2.
  destruct (run_keeps evs st1 HI1) as (Hs2 & _). specialize (Hs2 Hs1).
  set (st2 := (run evs st1).1) in *.
  destruct (step_resolved i st2) as (st3 & es3 & Hsw & Heq);
    [done|done|apply HI2|done|].
  rewrite Heq. cbn [fst snd].
  assert (Hidle' : idle_at (set_pending (remove_first i (pending st2)) st2)
                     (connectionCounter st) = Some (length (sockets st))).
  { apply idle_at_Some. apply idle_at_Some in Hidle2. exact Hidle2. }
  split.
  - apply elem_of_app. left.
    destruct Hsw as (-> & _). apply list_elem_of_fmap. eexists. split; [done|].
    apply list_elem_of_omap. exists (connectionCounter st). split; [|done].
    apply elem_of_Object_keys. apply idle_at_registered in Hidle'. eauto.
  - intros k Hk. cbn in Hk. destruct (swept_entry _ _ _ _ _ Hsw Hk) as [Hb Hnone].
    cbn in Hb. destruct (inv_registry st2 HI2 k _ Hb) as (sock & E & Hid).
    apply idle_at_registered in Hidle2.
    destruct (inv_registry st2 HI2 _ _ Hidle2) as (sock' & E' & Hid').
    assert (k = connectionCounter st) as -> by congruence. congruence.
Qed.

Lemma late_connection_is_swept_witness :
  reachable (step (EvSignal 0 "SIGTERM") (serving (Some with_hook))).1 ∧
  SocketDestroy 2
    ∈ (step (EvHookResolved 0)
         (run [EvConnection 0; EvRequest 0; EvFinish 1]
              (step (EvConnection 0)
                 (step (EvSignal 0 "SIGTERM") (serving (Some with_hook))).1).1).1).2.
Proof.
  assert (Hr : reachable (step (EvSignal 0 "SIGTERM") (serving (Some with_hook))).1).
  { exists [EvGracefulShutdown (Some with_hook); EvConnection 0; EvConnection 0;
            EvRequest 1; EvSignal 0 "SIGTERM"]. vm_compute. reflexivity. }
  split; [exact Hr|].
  destruct (late_connection_is_swept _ 0 0 (objectAssign_defaults with_hook)
              [EvConnection 0; EvRequest 0; EvFinish 1] Hr)
    as (_ & H); [vm_compute; reflexivity|vm_compute; left|vm_compute; reflexivity|].
  destruct H as (_ & H & _);
    try (intros Hin; vm_compute in Hin;
         repeat (apply elem_of_cons in Hin as [Hin|Hin]; [discriminate|]);
         by apply elem_of_nil in Hin).
  - vm_compute. reflexivity.
  - vm_compute. left.
  - vm_compute. reflexivity.
  - exact H.
Defined.

(** ** Callbacks that are not functions *)

Lemma not_a_hook v : v ≠ JFunction → truthy v && isFunction v = false.
Proof.
  intros Hv. unfold isFunction.
  destruct v; cbn; rewrite ?andb_false_r; try done.
Qed.

(** X15: an [onShutdown] that is not a function, whatever else it is, is
    never called and raises no error: [shutdown] does what it does when no
    hook is configured, so that the first trigger outside development mode
    runs the sweep and calls [server.close] at once.  A [finally] that is not
    a function is not called at exit either. *)
Theorem non_function_callbacks_are_skipped o i sig st :
  (onShutdown o ≠ JFunction →
   shutdown i o sig st = shutdown i (with_onShutdown JUndefined o) sig st ∧
   (reachable st → status st = Alive → instances st !! i = Some o →
    started o st = true →
    let es := (step (EvSignal i sig) st).2 in
    count is_hook es = 0 ∧ count is_sweep es = 1 ∧
    last es = Some (ServerClose i) ∧
    status (step (EvSignal i sig) st).1 = Alive)) ∧
  (finally o ≠ JFunction → exit_listener i o = [Debug DbgClosed]).
Proof.
  split.
  - intros Hh%not_a_hook. split.
    + unfold shutdown. cbn [development timeout onShutdown with_onShutdown].
      rewrite Hh. reflexivity.
    + intros HI%reachable_Inv Hal Hi Hst. cbn zeta.
      destruct (step_trigger_cleanup i o sig st Hal Hi Hst Hh (inv_registry st HI))
        as (st1 & es1 & Hsw & ->). cbn [fst snd].
      destruct (arm_effects_counts i o) as (_ & _ & A3 & A4 & _).
      destruct Hsw as (-> & _ & (_ & _ & _ & _ & _ & _ & Hs1) & _).
      split; [counts; lia|]. split; [counts; lia|]. split.
      * unfold close_effects. rewrite !app_assoc.
        change [?a; ?b; ?c] with ([a; b] ++ [c]). rewrite app_assoc.
        apply last_snoc.
      * cbn. rewrite Hs1. unfold arm. by destruct (truthy (timeout o)).
  - intros Hf%not_a_hook. unfold exit_listener. by rewrite Hf.
Qed.

Lemma non_function_callbacks_are_skipped_witness :
  shutdown 0 (with_onShutdown (JStr "cleanup") (objectAssign_defaults empty_opts))
           "SIGTERM" (serving None)
  = shutdown 0 (with_onShutdown JUndefined
                  (with_onShutdown (JStr "cleanup") (objectAssign_defaults empty_opts)))
             "SIGTERM" (serving None).
Proof.
  destruct (non_function_callbacks_are_skipped
              (with_onShutdown (JStr "cleanup") (objectAssign_defaults empty_opts))
              0 "SIGTERM" (serving None)) as [H _].
  destruct H as [H _]; [discriminate|exact H].
Defined.

(** ** Exit statuses *)

Lemma elem_of_remove_first (i j : nat) l : j ∈ remove_first i l → j ∈ l.
Proof.
  induction l as [|x l IH]; cbn; [done|]. case_decide.
  - by right.
  - intros [->|Hin]%elem_of_cons; [left|right; auto].
Qed.

Ltac sublist :=
  intros ?; rewrite ?elem_of_app, ?elem_of_cons, ?elem_of_nil; tauto.

Lemma accounted_subset st es es' :
  accounted st es → (∀ e, e ∈ es → e ∈ es') → accounted st es'.
Proof.
  intros (Ht & Hc & Hp) Hsub. split; [|split]; [|by auto..].
  intros i Hi. destruct (Ht i Hi) as (ms & ?). eauto.
Qed.

Lemma accounted_less_state st st' es :
  accounted st es →
  (∀ i, i ∈ timers st' → i ∈ timers st) →
  (∀ i, i ∈ closing st' → i ∈ closing st) →
  (∀ i, i ∈ pending st' → i ∈ pending st) →
  accounted st' es.
Proof. intros (Ht & Hc & Hp) H1 H2 H3. split; [|split]; auto. Qed.

Lemma accounted_arm st es i o :
  accounted st es →
  accounted (arm i o (set_isShuttingDown true st)) (es ++ arm_effects i o).
Proof.
  intros (Ht & Hc & Hp). unfold arm, arm_effects. destruct (truthy (timeout o)).
  - split; [|split]; cbn.
    + intros j [Hj| ->%list_elem_of_singleton]%elem_of_app.
      * destruct (Ht j Hj) as (ms & ?). exists ms. apply elem_of_app. by left.
      * exists (timeout o). apply elem_of_app. right. left.
    + intros j Hj. apply elem_of_app. left. auto.
    + intros j Hj. apply elem_of_app. left. auto.
  - rewrite app_nil_r. by split.
Qed.

Lemma accounted_hook b esb i p :
  accounted b esb → pending b = p →
  accounted (set_pending (p ++ [i]) b) (esb ++ [OnShutdownCall i]).
Proof.
  intros (Ht & Hc & Hp) <-. split; [|split]; cbn.
  - intros j Hj. destruct (Ht j Hj) as (ms & ?). exists ms. apply elem_of_app. by left.
  - intros j Hj. apply elem_of_app. left. auto.
  - intros j [Hj| ->%list_elem_of_singleton]%elem_of_app; apply elem_of_app.
    + left. auto.
    + right. left.
Qed.

Lemma accounted_swept b st1 es1 i esb :
  swept b st1 es1 → accounted b esb →
  accounted (set_closing (closing st1 ++ [i]) st1) (esb ++ [ServerClose i]).
Proof.
  intros (_ & _ & (_ & _ & _ & Et & Ep & Ec & _) & _) (Bt & Bc & Bp).
  split; [|split]; cbn.
  - rewrite Et. intros j Hj. destruct (Bt j Hj) as (ms & ?). exists ms.
    apply elem_of_app. by left.
  - rewrite Ec. intros j [Hj| ->%list_elem_of_singleton]%elem_of_app; apply elem_of_app.
    + left. auto.
    + right. left.
  - rewrite Ep. intros j Hj. apply elem_of_app. left. auto.
Qed.

Lemma transition_accounted st ev st' es' es :
  transition st ev st' es' → accounted st es → accounted st' (es ++ es').
Proof.
  intros Htr Hacc.
  assert (Hmore : ∀ es', accounted st (es ++ es')).
  { intros es0. apply (accounted_subset st es); [done|]. sublist. }
  destruct Htr; try apply Hmore.
  - (* first trigger, hook *)
    eapply accounted_subset;
      [apply (accounted_hook (arm i o (set_isShuttingDown true st))
                 (es ++ arm_effects i o) i (pending st));
         [apply accounted_arm, Hacc|unfold arm; by destruct (truthy (timeout o))]|].
    sublist.
  - (* first trigger, no hook *)
    eapply accounted_subset;
      [apply (accounted_swept _ _ _ i (es ++ arm_effects i o) H2), accounted_arm, Hacc|].
    unfold close_effects. sublist.
  - (* timer *)
    eapply accounted_less_state; [apply Hmore|..]; cbn; intros j Hj; try done;
      by apply elem_of_remove_first in Hj.
  - (* resolved *)
    eapply accounted_subset; [apply (accounted_swept _ _ _ i es H0)|].
    + eapply accounted_less_state; [apply Hacc|..]; cbn; intros j Hj; try done;
        by apply elem_of_remove_first in Hj.
    + unfold close_effects. sublist.
  - (* rejected *)
    eapply accounted_less_state; [apply Hmore|..]; cbn; intros j Hj; try done;
      by apply elem_of_remove_first in Hj.
  - (* closed *)
    eapply accounted_less_state; [apply Hmore|..]; cbn; intros j Hj; try done;
      by apply elem_of_remove_first in Hj.
  - (* rejected, and raised by the runtime *)
    eapply accounted_less_state; [apply Hmore|..]; cbn; intros j Hj; try done;
      by apply elem_of_remove_first in Hj.
Qed.

Lemma step_explained ev st es :
  Inv st → accounted st es → explained st es →
  accounted (step ev st).1 (es ++ (step ev st).2) ∧
  explained (step ev st).1 (es ++ (step ev st).2).
Proof.
  intros HI Hacc Hex.
  destruct (decide (status st = Alive)) as [Hal|Hd];
    [|by rewrite step_dead, app_nil_r].
  split; [apply (transition_accounted st ev); [by apply step_rule|done]|].
  intros code Hcode.
  destruct (step_exit_paths ev st code HI Hal Hcode)
    as (pre & Hes & _ & _ & Hin & Hpath).
  destruct Hacc as (Ht & Hc & _).
  destruct Hpath as [(i & o & sig & -> & Hi & Hd & ->)|[(i & -> & Hi & ->)|(i & -> & Hi & ->)]].
  - right. split; [done|]. right. exists i, o. by rewrite Hin.
  - left. split; [done|]. destruct (Ht i Hi) as (ms & ?). exists i, ms.
    apply elem_of_app. by left.
  - right. split; [done|]. left. exists i. apply elem_of_app. left. auto.
Qed.

Lemma run_explained evs : ∀ st es,
  Inv st → accounted st es → explained st es →
  explained (run evs st).1 (es ++ (run evs st).2).
Proof.
  induction evs as [|ev evs IH]; intros st es HI Hacc Hex.
  - cbn. by rewrite app_nil_r.
  - rewrite run_cons. cbn [fst snd]. rewrite app_assoc.
    destruct (step_explained ev st es HI Hacc Hex) as [Hacc' Hex'].
    apply IH; [by apply step_Inv|done..].
Qed.

Lemma transition_exits_logged st ev st' es' es :
  transition st ev st' es' → status st = Alive →
  exits_logged st es → exits_logged st' (es ++ es').
Proof.
  intros Htr Hal Hlog code [Hin|Hin]%elem_of_app.
  { rewrite (Hlog code Hin) in Hal. done. }
  assert (Hexit : ∀ c, ProcessExit code ∈ exit_effects c st → Exited c = Exited code).
  { intros c [[= ->]|Hl]%elem_of_cons; [done|]. exfalso. revert Hl.
    apply (not_in_by_count is_exit); [counts; done|done]. }
  destruct Htr; cbn [status set_status];
    try (by apply elem_of_nil in Hin);
    try (destruct (arm_effects_counts i o) as (_ & _ & _ & _ & _ & A6 & _));
    repeat match goal with H : swept _ _ _ |- _ => destruct H as (-> & _) end;
    try (exfalso; revert Hin; apply (not_in_by_count is_exit); [counts; lia|done]).
  - apply elem_of_app in Hin as [Hin|Hin]; [|by apply Hexit].
    exfalso. revert Hin. apply (not_in_by_count is_exit); [counts; lia|done].
  - apply elem_of_cons in Hin as [[=]|Hin]. by apply Hexit.
  - by apply Hexit.
Qed.

Lemma run_exits_logged evs : ∀ st es,
  Inv st → exits_logged st es → exits_logged (run evs st).1 (es ++ (run evs st).2).
Proof.
  induction evs as [|ev evs IH]; intros st es HI Hlog.
  - cbn. by rewrite app_nil_r.
  - rewrite run_cons. cbn [fst snd]. rewrite app_assoc.
    apply IH; [by apply step_Inv|].
    destruct (decide (status st = Alive)) as [Hal|Hd];
      [|by rewrite step_dead, app_nil_r].
    apply (transition_exits_logged st ev); [by apply step_rule|done..].
Qed.

(** X12: every call of [process.exit] that the module makes ends the process
    with the status it is given, which is 0 or 1.  A call with 1 means that a
    forced-exit timer had been armed; a call with 0 means that [server.close]
    had been called after the one sweep of the run, or that one of the
    instances is in development mode. *)
Theorem exit_status_tells_why evs code :
  let st := (run evs init).1 in
  let es := (run evs init).2 in
  ProcessExit code ∈ es →
  status st = Exited code ∧
  ((code = 1%Z ∧ ∃ i ms, SetTimeout i ms ∈ es) ∨
   (code = 0%Z ∧
    ((∃ i, ServerClose i ∈ es ∧ count is_sweep es = 1) ∨
     ∃ j o, instances st !! j = Some o ∧ truthy (development o) = true))).
Proof.
  intros st es Hin.
  assert (Hcode : status st = Exited code).
  { apply (run_exits_logged evs init []); [apply Inv_init| |done].
    intros c Hc. by apply elem_of_nil in Hc. }
  split; [done|].
  assert (Hex : explained st ([] ++ es)).
  { apply run_explained; [apply Inv_init| |].
    - split; [|split]; intros i Hi; cbn in Hi; by apply elem_of_nil in Hi.
    - intros c Hc. done. }
  destruct (Hex code Hcode) as [?|[-> [(i & Hi)|?]]]; [by left| |right; by eauto].
  right. split; [done|]. left. exists i. split; [done|].
  pose proof (run_init_TInv evs) as HT. fold st es in HT.
  pose proof (t_close _ _ HT) as Hc. pose proof (t_sweep _ _ HT) as Hs.
  pose proof (count_pos is_close es _ Hi eq_refl). lia.
Qed.

Lemma exit_status_tells_why_witness :
  status (run [EvGracefulShutdown None; EvSignal 0 "SIGTERM"; EvServerClosed 0]
              init).1 = Exited 0.
Proof.
  destruct (exit_status_tells_why
              [EvGracefulShutdown None; EvSignal 0 "SIGTERM"; EvServerClosed 0] 0)
    as [H _]; [|exact H].
  refine (bool_decide_unpack _ _). vm_compute. exact I.
Defined.

(** ** What is never undone *)

Lemma persists_refl l : persists l l.
Proof. intros s sock Hs. exists sock. done. Qed.

Lemma persists_trans l1 l2 l3 : persists l1 l2 → persists l2 l3 → persists l1 l3.
Proof.
  intros H1 H2 s sock Hs. destruct (H1 _ _ Hs) as (s1 & E1 & A1 & B1 & C1).
  destruct (H2 _ _ E1) as (s2 & E2 & A2 & B2 & C2).
  exists s2. repeat split; try congruence. auto.
Qed.

Lemma persists_alter (f : socket → socket) l s :
  (∀ sock, _connectionId (f sock) = _connectionId sock ∧
           server_of (f sock) = server_of sock ∧
           (destroyed sock = true → destroyed (f sock) = true)) →
  persists l (alter f s l).
Proof.
  intros Hf s' sock Hs. destruct (decide (s = s')) as [->|Hne].
  - exists (f sock). rewrite list_lookup_alter_eq, Hs. split; [done|]. apply Hf.
  - exists sock. by rewrite list_lookup_alter_ne.
Qed.

Lemma only_destroys_persists l l' : only_destroys l l' → persists l l'.
Proof.
  intros [_ H] s sock Hs. destruct (H _ _ Hs) as (sock' & ? & _ & ? & ? & ?).
  by exists sock'.
Qed.

Lemma step_persists ev st : Inv st → persists (sockets st) (sockets (step ev st).1).
Proof.
  intros HI. destruct (decide (status st = Alive)) as [Hal|Hd];
    [|rewrite step_dead by done; apply persists_refl].
  pose proof (step_rule ev st HI Hal) as Htr.
  destruct Htr; cbn; try apply persists_refl.
  - unfold arm. destruct (truthy (timeout o)); apply persists_refl.
  - destruct H2 as (_ & _ & _ & Hod & _). apply only_destroys_persists in Hod.
    revert Hod. unfold arm. by destruct (truthy (timeout o)).
  - intros s sock Hs. exists sock. split; [|done]. by apply lookup_app_l_Some.
  - by apply persists_alter.
  - eapply persists_trans; by apply persists_alter.
  - by apply persists_alter.
  - destruct H0 as (_ & _ & _ & Hod & _). by apply only_destroys_persists in Hod.
Qed.

Lemma run_persists evs : ∀ st,
  Inv st → persists (sockets st) (sockets (run evs st).1).
Proof.
  induction evs as [|ev evs IH]; intros st HI; [apply persists_refl|].
  rewrite run_cons. cbn [fst].
  eapply persists_trans; [by apply step_persists|apply IH, step_Inv, HI].
Qed.

(** X13: nothing the loop does is undone later.  From any reachable state
    and through any run, the shutdown flag stays set once it is set, the
    counter does not decrease, the instances keep their options, a socket
    keeps its identifier and its server and stays destroyed once it is, and a
    process that has exited runs nothing more. *)
Theorem nothing_is_undone st evs :
  reachable st →
  let st' := (run evs st).1 in
  (isShuttingDown st = true → isShuttingDown st' = true) ∧
  (connectionCounter st ≤ connectionCounter st')%N ∧
  (∀ i o, instances st !! i = Some o → instances st' !! i = Some o) ∧
  (∀ s sock, sockets st !! s = Some sock →
     ∃ sock', sockets st' !! s = Some sock' ∧
       _connectionId sock' = _connectionId sock ∧
       server_of sock' = server_of sock ∧
       (destroyed sock = true → destroyed sock' = true)) ∧
  (status st ≠ Alive → run evs st = (st, [])).
Proof.
  intros HI%reachable_Inv. cbn zeta.
  destruct (run_keeps evs st HI) as (K1 & K2 & _ & K4).
  split; [done|]. split; [done|]. split; [done|]. split.
  - apply (run_persists evs st HI).
  - apply run_dead.
Qed.

Lemma nothing_is_undone_witness :
  reachable (step (EvSignal 0 "SIGTERM") (serving None)).1 ∧
  isShuttingDown
    (run [EvConnection 0; EvRequest 2; EvClose 1]
         (step (EvSignal 0 "SIGTERM") (serving None)).1).1 = true.
Proof.
  assert (Hr : reachable (step (EvSignal 0 "SIGTERM") (serving None)).1).
  { exists [EvGracefulShutdown None; EvConnection 0; EvConnection 0; EvRequest 1;
            EvSignal 0 "SIGTERM"]. vm_compute. reflexivity. }
  split; [exact Hr|].
  destruct (nothing_is_undone _ [EvConnection 0; EvRequest 2; EvClose 1] Hr) as [H _].
  apply H. vm_compute. reflexivity.
Defined.

(** X16: identifiers follow the order of acceptance.  In every run, the
    counter is the number of sockets accepted so far and the socket accepted
    as number [n], counting from 0, carries the identifier [n], both capped at
    [2^53]; every socket belongs to the server of an existing instance. *)
Theorem identifiers_follow_acceptance evs :
  let st := (run evs init).1 in
  connectionCounter st = N.min (N.of_nat (length (sockets st))) MAX_EXACT ∧
  ∀ n sock, sockets st !! n = Some sock →
    _connectionId sock = N.min (N.of_nat n) MAX_EXACT ∧
    is_Some (instances st !! server_of sock).
Proof.
  cbn zeta. assert (HI : Inv (run evs init).1) by apply run_Inv, Inv_init.
  split; [apply HI|]. intros n sock Hs. split; [by apply HI|].
  apply lookup_lt_is_Some. by apply (inv_server _ HI n).
Qed.

(** ** One shutdown for the whole process *)

Lemma listeners_engage (l : list options) e :
  e ∈ mjoin (imap exit_listener l) →
  is_timer e = false ∧ is_hook e = false ∧ is_close e = false.
Proof.
  intros Hin. destruct e; try done; exfalso.
  - revert Hin. apply (not_in_by_count is_timer); [counts; done|done].
  - revert Hin. apply (not_in_by_count is_hook); [counts; done|done].
  - revert Hin. apply (not_in_by_count is_close); [counts; done|done].
Qed.

Lemma swept_effects b st1 es1 e :
  swept b st1 es1 → e ∈ es1 → ∃ s, e = SocketDestroy s.
Proof. intros (-> & _) (s & -> & _)%list_elem_of_fmap. eauto. Qed.

Lemma engaged_cases st st' es es' i j :
  (∀ k, k ∈ timers st' → k ∈ timers st ∨ k = i) →
  (∀ k, k ∈ pending st' → k ∈ pending st ∨ k = i) →
  (∀ k, k ∈ closing st' → k ∈ closing st ∨ k = i) →
  (∀ e, e ∈ es' →
     (is_timer e = false ∧ is_hook e = false ∧ is_close e = false) ∨
     (∃ ms, e = SetTimeout i ms) ∨ e = OnShutdownCall i ∨ e = ServerClose i) →
  engaged st' (es ++ es') j → engaged st es j ∨ j = i.
Proof.
  intros Ht Hp Hc Hes. unfold engaged.
  intros [Hj|[Hj|[Hj|[(ms & Hj)|[Hj|Hj]]]]].
  - destruct (Ht j Hj); [tauto|by right].
  - destruct (Hp j Hj); [tauto|by right].
  - destruct (Hc j Hj); [tauto|by right].
  - apply elem_of_app in Hj as [Hj|Hj]; [left; eauto 10|].
    destruct (Hes _ Hj) as [(? & _)|[(ms' & E)|[E|E]]]; try done.
    injection E as -> _. by right.
  - apply elem_of_app in Hj as [Hj|Hj]; [tauto|].
    destruct (Hes _ Hj) as [(_ & ? & _)|[(ms' & E)|[E|E]]]; try done.
    injection E as ->. by right.
  - apply elem_of_app in Hj as [Hj|Hj]; [tauto|].
    destruct (Hes _ Hj) as [(_ & _ & ?)|[(ms' & E)|[E|E]]]; try done.
    injection E as ->. by right.
Qed.

Lemma engaged_quiet st st' es es' j :
  (∀ k, k ∈ timers st' → k ∈ timers st) →
  (∀ k, k ∈ pending st' → k ∈ pending st) →
  (∀ k, k ∈ closing st' → k ∈ closing st) →
  (∀ e, e ∈ es' → is_timer e = false ∧ is_hook e = false ∧ is_close e = false) →
  engaged st' (es ++ es') j → engaged st es j.
Proof.
  intros Ht Hp Hc Hes. unfold engaged.
  intros [Hj|[Hj|[Hj|[(ms & Hj)|[Hj|Hj]]]]]; [auto; tauto..| | |].
  - apply elem_of_app in Hj as [Hj|Hj]; [eauto 10|]. by destruct (Hes _ Hj) as (? & _).
  - apply elem_of_app in Hj as [Hj|Hj]; [tauto|]. by destruct (Hes _ Hj) as (_ & ? & _).
  - apply elem_of_app in Hj as [Hj|Hj]; [tauto|]. by destruct (Hes _ Hj) as (_ & _ & ?).
Qed.

Ltac members He :=
  repeat first
    [ apply elem_of_app in He as [He|He]
    | apply elem_of_cons in He as [->|He]
    | apply elem_of_nil in He; destruct He ].

Lemma arm_members i o st k :
  (k ∈ timers (arm i o (set_isShuttingDown true st)) → k ∈ timers st ∨ k = i) ∧
  (k ∈ pending (arm i o (set_isShuttingDown true st)) → k ∈ pending st) ∧
  (k ∈ closing (arm i o (set_isShuttingDown true st)) → k ∈ closing st).
Proof.
  unfold arm. destruct (truthy (timeout o)); cbn; repeat split; auto.
  intros Hk. members Hk; auto.
Qed.

Lemma arm_effects_members i o e :
  e ∈ arm_effects i o → ∃ ms, e = SetTimeout i ms.
Proof.
  unfold arm_effects. destruct (truthy (timeout o)); intros He; members He. eauto.
Qed.

(** The instances engaged after a turn were engaged before it, unless the
    turn is the first trigger, which engages its own instance only. *)
Lemma transition_engaged st ev st' es' es j :
  transition st ev st' es' → Inv st → TInv st es →
  engaged st' (es ++ es') j →
  engaged st es j ∨
  (isShuttingDown st = false ∧ ∃ sig, ev = EvSignal j sig).
Proof.
  intros Htr HI HT Hj.
  assert (Hfresh : isShuttingDown st = false → ¬ engaged st es j).
  { intros Hs. destruct (inv_running st HI Hs) as (Et & Ep & Ec).
    destruct (t_running st es HT Hs) as (_ & C1 & C2 & C3 & _).
    pose proof (t_close st es HT) as C4. unfold engaged. rewrite Et, Ep, Ec.
    intros [?%elem_of_nil|[?%elem_of_nil|[?%elem_of_nil|[(ms & Hin)|[Hin|Hin]]]]];
      try done.
    - by apply (not_in_by_count is_timer es _ C1) in Hin.
    - by apply (not_in_by_count is_hook es _ C2) in Hin.
    - apply (not_in_by_count is_close es) in Hin; [done|lia|done]. }
  destruct Htr.
  - left. revert Hj. apply engaged_quiet; auto. by intros e ?%elem_of_nil.
  - left. revert Hj. apply engaged_quiet; auto. by intros e ?%elem_of_nil.
  - left. revert Hj. apply engaged_quiet; auto.
    intros e He. members He; try done. by apply listeners_engage in He.
  - left. revert Hj. apply engaged_quiet; auto. intros e He. by members He.
  - (* first trigger, hook *)
    apply andb_prop in H0 as [_ Hs%negb_true_iff].
    assert (Hcase : engaged st es j ∨ j = i).
    { revert Hj. apply engaged_cases.
      + intros k Hk. by apply arm_members in Hk.
      + intros k Hk. cbn in Hk. members Hk; auto.
      + intros k Hk. cbn in Hk. left. by apply arm_members in Hk.
      + intros e He. members He; auto.
        apply arm_effects_members in He as (ms & ->). eauto. }
    destruct Hcase as [?| ->]; [by destruct (Hfresh Hs)|right; eauto].
  - (* first trigger, no hook *)
    apply andb_prop in H0 as [_ Hs%negb_true_iff].
    pose proof H2 as (_ & _ & (_ & _ & _ & Ht1 & Hp1 & Hc1 & _) & _).
    assert (Hcase : engaged st es j ∨ j = i).
    { revert Hj. apply engaged_cases.
      + intros k Hk. cbn in Hk. rewrite Ht1 in Hk. by apply arm_members in Hk.
      + intros k Hk. cbn in Hk. rewrite Hp1 in Hk. left. by apply arm_members in Hk.
      + intros k Hk. cbn in Hk. rewrite Hc1 in Hk. members Hk; auto.
        left. by apply arm_members in Hk.
      + intros e He. unfold close_effects in He. members He; auto.
        * apply arm_effects_members in He as (ms & ->). eauto.
        * apply (swept_effects _ _ _ _ H2) in He as (s & ->). auto. }
    destruct Hcase as [?| ->]; [by destruct (Hfresh Hs)|right; eauto].
  - left. revert Hj. apply engaged_quiet; auto. by intros e ?%elem_of_nil.
  - left. revert Hj. apply engaged_quiet; auto. by intros e ?%elem_of_nil.
  - left. revert Hj. apply engaged_quiet; auto. intros e He. by members He.
  - left. revert Hj. apply engaged_quiet; auto. by intros e ?%elem_of_nil.
  - left. revert Hj. apply engaged_quiet; auto. by intros e ?%elem_of_nil.
  - (* timer *)
    left. revert Hj. apply engaged_quiet; cbn; auto.
    + by intros k ?%elem_of_remove_first.
    + intros e He. members He; try done. by apply listeners_engage in He.
  - (* resolved *)
    left. pose proof H0 as (_ & _ & (_ & _ & _ & Ht1 & Hp1 & Hc1 & _) & _).
    cbn in Ht1, Hp1, Hc1.
    assert (Hcase : engaged st es j ∨ j = i).
    { revert Hj. apply engaged_cases.
      + intros k Hk. cbn in Hk. rewrite Ht1 in Hk. auto.
      + intros k Hk. cbn in Hk. rewrite Hp1 in Hk.
        apply elem_of_remove_first in Hk. auto.
      + intros k Hk. cbn in Hk. rewrite Hc1 in Hk. members Hk; auto.
      + intros e He. unfold close_effects in He. members He; auto.
        apply (swept_effects _ _ _ _ H0) in He as (s & ->). auto. }
    destruct Hcase as [?| ->]; [done|]. unfold engaged. tauto.
  - left. revert Hj. apply engaged_quiet; cbn; auto.
    + by intros k ?%elem_of_remove_first.
    + by intros e ?%elem_of_nil.
  - (* closed *)
    left. revert Hj. apply engaged_quiet; cbn; auto.
    + by intros k ?%elem_of_remove_first.
    + intros e He. members He; try done. by apply listeners_engage in He.
  - (* rejected, and raised by the runtime *)
    left. revert Hj. apply engaged_quiet; cbn; auto.
    + by intros k ?%elem_of_remove_first.
    + intros e He. by apply listeners_engage in He.
Qed.

Lemma running_not_engaged st es i :
  Inv st → TInv st es → isShuttingDown st = false → ¬ engaged st es i.
Proof.
  intros HI HT Hs. destruct (inv_running st HI Hs) as (Et & Ep & Ec).
  destruct (t_running st es HT Hs) as (_ & C1 & C2 & C3 & _).
  pose proof (t_close st es HT) as C4. unfold engaged. rewrite Et, Ep, Ec.
  intros [?%elem_of_nil|[?%elem_of_nil|[?%elem_of_nil|[(ms & Hin)|[Hin|Hin]]]]];
    try done.
  - by apply (not_in_by_count is_timer es _ C1) in Hin.
  - by apply (not_in_by_count is_hook es _ C2) in Hin.
  - apply (not_in_by_count is_close es) in Hin; [done|lia|done].
Qed.

Lemma step_single_owner ev st es :
  Inv st → TInv st es → single_owner st es →
  single_owner (step ev st).1 (es ++ (step ev st).2).
Proof.
  intros HI HT Hso. destruct (decide (status st = Alive)) as [Hal|Hd];
    [|by rewrite step_dead, app_nil_r].
  pose proof (step_rule ev st HI Hal) as Htr. intros i j Hi Hj.
  destruct (transition_engaged _ _ _ _ _ i Htr HI HT Hi) as [Hi'|(Hs & sig & Ei)],
           (transition_engaged _ _ _ _ _ j Htr HI HT Hj) as [Hj'|(Hs' & sig' & Ej)].
  - by apply Hso.
  - by destruct (running_not_engaged st es i HI HT Hs').
  - by destruct (running_not_engaged st es j HI HT Hs).
  - congruence.
Qed.

Lemma run_single_owner evs : ∀ st es,
  Inv st → TInv st es → single_owner st es →
  single_owner (run evs st).1 (es ++ (run evs st).2).
Proof.
  induction evs as [|ev evs IH]; intros st es HI HT Hso.
  - cbn. by rewrite app_nil_r.
  - rewrite run_cons. cbn [fst snd]. rewrite app_assoc.
    apply IH; [by apply step_Inv|by apply step_TInv|by apply step_single_owner].
Qed.

(** X17: a process has one shutdown, whatever the number of instances.  In
    every run at most one forced-exit timer is armed, at most one hook is
    called, the sweep runs at most once and at most one server is closed; and
    all of it belongs to one and the same instance: the timer, the hook and
    the server of any other instance are never touched. *)
Theorem one_shutdown_per_process evs :
  let st := (run evs init).1 in
  let es := (run evs init).2 in
  count is_timer es ≤ 1 ∧ count is_hook es ≤ 1 ∧ count is_sweep es ≤ 1 ∧
  count is_close es ≤ 1 ∧
  ∀ i j, engaged st es i → engaged st es j → i = j.
Proof.
  cbn zeta. pose proof (run_init_TInv evs) as HT.
  pose proof (t_sweep _ _ HT) as Hs. pose proof (t_close _ _ HT) as Hc.
  split; [apply HT|]. split; [apply HT|]. split; [lia|]. split; [lia|].
  apply (run_single_owner evs init [] Inv_init TInv_init).
  intros i j Hi. exfalso. revert Hi.
  by apply (running_not_engaged init [] i Inv_init TInv_init).
Qed.

(** ** A response that finishes after its socket has closed *)

(** X18: during shutdown, when a socket has closed, so that its entry is
    gone, and a response then finishes on it, [destroy] is still called on the
    socket and deletes a key that is no longer there: the registry is left as
    it was and nothing is thrown. *)
Theorem finish_after_close st s sock :
  status st = Alive → isShuttingDown st = true → sockets st !! s = Some sock →
  let st1 := (step (EvClose s) st).1 in
  let st2 := (step (EvFinish s) st1).1 in
  connections st1 !! _connectionId sock = None ∧
  (step (EvFinish s) st1).2 = [SocketDestroy s] ∧
  connections st2 = connections st1 ∧ status st2 = Alive.
Proof.
  intros Hal Hs Hsock. cbn zeta. rewrite (step_close s sock st Hal Hsock). cbn [fst].
  rewrite (step_finish_reap s sock); [|done..]. cbn.
  split; [apply lookup_delete_eq|]. split; [done|]. split; [|done].
  apply delete_id, lookup_delete_eq.
Qed.

Lemma finish_after_close_witness :
  (step (EvFinish 1)
        (step (EvClose 1) (step (EvSignal 0 "SIGTERM") (serving None)).1).1).2
  = [SocketDestroy 1].
Proof.
  by destruct (finish_after_close (step (EvSignal 0 "SIGTERM") (serving None)).1 1
                 (Socket false 1 false 0) eq_refl eq_refl eq_refl) as (_ & H & _).
Defined.
